(** * llm-interface: the Gemini and Writer adapters

    A shallow embedding of [src/interfaces/gemini.js] and
    [src/interfaces/writer.js], and the properties of message
    normalisation, caching, retrying and response shaping that the
    specification states about them.

    Conventions of the embedding.
    - JavaScript numbers are rationals ([Q]) where the code treats them as
      reals (temperature, retry multiplier, delays, time-to-live), and
      integers ([Z]) where they count ([max_tokens], [retryAttempts]).
      Rounding of IEEE doubles is not modelled.
    - An absent property ([undefined]) is [None].
    - [a || b] is [a] when [a] is truthy and [b] otherwise.
    - An [async] function is modelled by its completion (a returned value
      or a thrown exception) together with the effects it performed, in
      the order it performed them. *)

From Stdlib Require Import ZArith QArith Lia Ascii String.
From stdpp Require Import base gmap strings list pretty.
From Equations Require Import Equations.

Close Scope Q_scope.
Set Warnings "-register-all".

(** ** JavaScript values and truthiness *)

Module JS.

Inductive Value :=
| Undefined
| Null
| Bool (b : bool)
| Num (q : Q)
| Str (s : string)
| Arr (items : list Value)
| Obj (fields : list (string * Value)).

Definition num_truthy (q : Q) : bool := negb (Qeq_bool q 0).
Definition int_truthy (z : Z) : bool := negb (z =? 0)%Z.
Definition str_truthy (s : string) : bool := negb (String.eqb s "").

(** [ToBoolean]: what [if (v)] and [v && ...] test. *)
Definition truthy (v : Value) : bool :=
  match v with
  | Undefined | Null => false
  | Bool b => b
  | Num q => num_truthy q
  | Str s => str_truthy s
  | Arr _ | Obj _ => true
  end.

(** [o || d] for a property [o] that may be absent. *)
Definition or_else {A} (is_truthy : A -> bool) (o : option A) (d : A) : A :=
  match o with
  | Some a => if is_truthy a then a else d
  | None => d
  end.

(** [o || p], both possibly absent. *)
Definition or_opt {A} (is_truthy : A -> bool) (o p : option A) : option A :=
  match o with
  | Some a => if is_truthy a then Some a else p
  | None => p
  end.

(** A destructuring default [{ x = d } = obj]: only [undefined] takes it. *)
Definition default_to {A} (o : option A) (d : A) : A :=
  match o with
  | Some a => a
  | None => d
  end.

Inductive Exn (E : Type) :=
| TypeError
| Raised (e : E).
Arguments TypeError {E}.
Arguments Raised {E} e.

Inductive Completion (E A : Type) :=
| Return (a : A)
| Throw (e : Exn E).
Arguments Return {E A} a.
Arguments Throw {E A} e.

End JS.

(** ** Messages *)

Record Message := { role : string; content : string }.

(** Roles alternate [user], [assistant], [user], ... from index 0: every
    even index holds [user] and every odd index [assistant]. *)
Definition Alternating (roles : list string) : Prop :=
  forall (i : nat) (r : string),
    roles !! i = Some r -> r = if Nat.even i then "user" else "assistant".

(** The error a provider call rejects with. [response_data] is
    [error.response.data] when [error.response] is set. *)
Record ApiError := { message : string; response_data : option JS.Value }.

(** ** The response cache

    [src/interfaces/gemini.js] requires [getFromCache] and [saveToCache]
    from [../utils/cache], which is not among the sources. *)

Module Cache.

Record Entry := { value : JS.Value; expiresAt : Q }.

Abbreviation t := (gmap string Entry).

(** Modelled from the spec: [get(key) -> value|miss] of the absent
    [utils/cache] module. An entry is invalidated lazily, when
    [now > expiresAt], at read time; a read does not change the store. *)
Definition getFromCache (now : Q) (key : string) (c : t) : option JS.Value :=
  match c !! key with
  | Some e => if Qlt_le_dec (expiresAt e) now then None else Some (value e)
  | None => None
  end.

(** Modelled from the spec: [put(key, value, ttlSeconds)] of the absent
    [utils/cache] module. One entry per key; a store overwrites. The clock
    counts seconds. *)
Definition saveToCache (now : Q) (key : string) (v : JS.Value) (ttlSeconds : Q)
    (c : t) : t :=
  <[key := {| value := v; expiresAt := (now + ttlSeconds)%Q |}]> c.

End Cache.

(** ** Gemini *)

Module Gemini.

Definition interfaceName : string := "gemini".

Record MessageObject := { model : option string; messages : list Message }.

Inductive MessageArg :=
| OfString (s : string)
| OfObject (mo : MessageObject).

Module Options.
Record t := {
  model : option string;
  max_tokens : option Z;
  response_format : option string;
  temperature : option Q;
  topP : option Q;
  topK : option Q }.
Definition empty : t := Build_t None None None None None None.
End Options.

(** [interfaceOptions] is a bare number, shorthand for the cache timeout,
    or an object. A property read on a number yields [undefined]. *)
Module InterfaceOptions.
Inductive t :=
| OfNumber (n : Q)
| OfObject (cacheTimeoutSeconds : option Q) (retryAttempts : option Z)
    (retryMultiplier : option Q).
Definition empty : t := OfObject None None None.
Definition cacheTimeoutSeconds (io : t) : option Q :=
  match io with
  | OfNumber n => Some n
  | OfObject c _ _ => c
  end.
Definition retryAttempts (io : t) : option Z :=
  match io with
  | OfNumber _ => None
  | OfObject _ r _ => r
  end.
Definition retryMultiplier (io : t) : option Q :=
  match io with
  | OfNumber _ => None
  | OfObject _ _ m => m
  end.
End InterfaceOptions.

Record Part := { text : string }.
Record Content := { c_role : string; parts : list Part }.

Module SamplingOptions.
Record t := { temperature : Q; topP : Q; topK : Q }.
End SamplingOptions.

Module GenerationConfig.
Record t := {
  temperature : Q;
  topP : Q;
  topK : Q;
  maxOutputTokens : Z;
  responseMimeType : option string }.
End GenerationConfig.

Record Converted := {
  history : list Content;
  prompt : string;
  generationConfig : GenerationConfig.t }.

Definition toContent (m : Message) : Content :=
  {| c_role := role m; parts := [ {| text := content m |} ] |}.

(** [history[0].role = 'user'] when there is a first entry and its role
    differs. *)
Definition forceFirstUser (h : list Content) : list Content :=
  match h with
  | h0 :: rest =>
      if negb (String.eqb (c_role h0) "user")
      then {| c_role := "user"; parts := parts h0 |} :: rest
      else h
  | [] => h
  end.

(** [convertDataStructure(input, maxTokens, responseFormat,
    generationConfigOptions)]. [input.messages[length - 1]] is [undefined]
    on an empty list, and reading [.content] of it throws a [TypeError]. *)
Definition convertDataStructure {E} (input : MessageObject) (maxTokens : Z)
    (responseFormat : string) (generationConfigOptions : SamplingOptions.t)
    : JS.Completion E Converted :=
  let history := forceFirstUser (map toContent (removelast (messages input))) in
  match last (messages input) with
  | None => JS.Throw JS.TypeError
  | Some lastMessage =>
      let prompt := content lastMessage in
      let responseMimeType :=
        if String.eqb responseFormat "json_object"
        then "application/json" else "text/plain" in
      let generationConfig :=
        {| GenerationConfig.temperature :=
             SamplingOptions.temperature generationConfigOptions;
           GenerationConfig.topP := SamplingOptions.topP generationConfigOptions;
           GenerationConfig.topK := SamplingOptions.topK generationConfigOptions;
           GenerationConfig.maxOutputTokens := maxTokens;
           GenerationConfig.responseMimeType :=
             if JS.str_truthy responseFormat then Some responseMimeType
             else None |} in
      JS.Return {| history := history; prompt := prompt;
                   generationConfig := generationConfig |}
  end.

(** The generation options [sendMessage] passes to the conversion. *)
Definition samplingOptions (options : Options.t) : SamplingOptions.t :=
  {| SamplingOptions.temperature :=
       JS.or_else JS.num_truthy (Options.temperature options) (9 # 10)%Q;
     SamplingOptions.topP := JS.or_else JS.num_truthy (Options.topP options) 1%Q;
     SamplingOptions.topK := JS.or_else JS.num_truthy (Options.topK options) 1%Q |}.

(** What one attempt sends: the object that is also serialised into the
    cache key. *)
Record Request := {
  r_model : string;
  r_history : list Content;
  r_prompt : string;
  r_generationConfig : GenerationConfig.t }.

(** What one attempt yields: the text of the response, or the error that
    [chat.sendMessage], [result.response] or [response.text()] rejected
    with; and the time it took, in seconds. *)
Record Reply := { outcome : ApiError + string; latency : Q }.

Inductive Event :=
| CacheGet (key : string)
| Invoke (req : Request)
| Sleep (ms : Q)
| CacheSave (key : string) (v : JS.Value) (ttlSeconds : Q)
| LogError (data : JS.Value).

Record World := { cache : Cache.t; now : Q; trace : list Event }.

Definition emit (ev : Event) (w : World) : World :=
  {| cache := cache w; now := now w; trace := trace w ++ [ev] |}.

Definition elapse (seconds : Q) (w : World) : World :=
  {| cache := cache w; now := (now w + seconds)%Q; trace := trace w |}.

Definition getFromCache (key : string) (w : World) : option JS.Value * World :=
  (Cache.getFromCache (now w) key (cache w), emit (CacheGet key) w).

Definition saveToCache (key : string) (v : JS.Value) (ttl : Q) (w : World) : World :=
  emit (CacheSave key v ttl)
    {| cache := Cache.saveToCache (now w) key v ttl (cache w);
       now := now w; trace := trace w |}.

Definition setTimeout (ms : Q) (w : World) : World :=
  emit (Sleep ms) (elapse (ms / 1000)%Q w).

Definition log_error (data : JS.Value) (w : World) : World :=
  emit (LogError data) w.

(** The number of provider invocations in a trace, the delays waited, and
    the cache stores, in order. *)
Fixpoint invocations (tr : list Event) : nat :=
  match tr with
  | Invoke _ :: tr' => S (invocations tr')
  | _ :: tr' => invocations tr'
  | [] => 0
  end.

Fixpoint delays (tr : list Event) : list Q :=
  match tr with
  | Sleep ms :: tr' => ms :: delays tr'
  | _ :: tr' => delays tr'
  | [] => []
  end.

Fixpoint stores (tr : list Event) : list (string * JS.Value * Q) :=
  match tr with
  | CacheSave k v ttl :: tr' => (k, v, ttl) :: stores tr'
  | _ :: tr' => stores tr'
  | [] => []
  end.

Section Adapter.

(** [returnMessageObject] and [returnModelByAlias] of [../utils/utils],
    the default model name of [../config/llm-providers.json], the built-ins
    [JSON.parse] ([None] when it throws) and [JSON.stringify], and the
    provider: the reply to the [n]-th invocation of a call, [n] from 0. *)
Variable returnMessageObject : string -> MessageObject.
Variable returnModelByAlias : string -> option string -> option string.
Variable defaultModelName : string.
Variable JSON_parse : string -> option JS.Value.
Variable JSON_stringify : Request -> string.
Variable provider : Request -> nat -> Reply.

Abbreviation Result := (JS.Completion ApiError JS.Value).

Section Attempts.

Variable interfaceOptions : InterfaceOptions.t.
Variable cacheTimeoutSeconds : option Q.
Variable response_format : string.
Variable request : Request.
Variable cacheKey : string.

(** The body of the [try] block once the provider has answered. *)
Definition reshape (raw : string) : JS.Value :=
  if String.eqb response_format "json_object"
  then match JSON_parse raw with
       | Some v => v
       | None => JS.Null
       end
  else JS.Str raw.

Definition storeResponse (txt : JS.Value) (w : World) : World :=
  match cacheTimeoutSeconds with
  | Some ttl =>
      if JS.num_truthy ttl && JS.truthy txt
      then saveToCache cacheKey txt ttl w else w
  | None => w
  end.

Definition retryDelay (currentRetry : nat) : Q :=
  let retryMultiplier :=
    JS.or_else JS.num_truthy
      (InterfaceOptions.retryMultiplier interfaceOptions) (3 # 10)%Q in
  ((inject_Z (Z.of_nat currentRetry) + 1) * retryMultiplier * 1000)%Q.

Definition errorData (error : ApiError) : JS.Value :=
  match response_data error with
  | Some d => d
  | None => JS.Null
  end.

(** [while (retryAttempts >= 0) { try { ... } catch (error) { ... } }].
    When the loop is not entered the function falls off its end and
    returns [undefined]. *)
Equations? retryLoop (retryAttempts : Z) (currentRetry : nat) (w : World)
    : Result * World by wf (Z.to_nat (retryAttempts + 1)) lt :=
  retryLoop retryAttempts currentRetry w with Z_lt_le_dec retryAttempts 0 := {
    | left _ => (JS.Return JS.Undefined, w)
    | right _ =>
        let reply := provider request currentRetry in
        let w := elapse (latency reply) (emit (Invoke request) w) in
        match outcome reply with
        | inr raw =>
            let txt := reshape raw in
            (JS.Return txt, storeResponse txt w)
        | inl error =>
            if (retryAttempts - 1 <? 0)%Z
            then (JS.Throw (JS.Raised error), log_error (errorData error) w)
            else retryLoop (retryAttempts - 1) (S currentRetry)
                   (setTimeout (retryDelay currentRetry) w)
        end }.
Proof. lia. Qed.

End Attempts.

(** Lines 67 to 92 of [sendMessage]: the message object, the resolved
    model and the converted request. *)
Definition responseFormat (options : Options.t) : string :=
  JS.default_to (Options.response_format options) "text/plain".

Definition buildRequest (message : MessageArg) (options : Options.t)
    : JS.Completion ApiError Request :=
  let messageObject :=
    match message with
    | OfString s => returnMessageObject s
    | OfObject mo => mo
    end in
  let selectedModel := returnModelByAlias interfaceName (model messageObject) in
  let max_tokens := JS.default_to (Options.max_tokens options) 150%Z in
  let response_format := responseFormat options in
  let model :=
    JS.or_else JS.str_truthy
      (JS.or_opt JS.str_truthy selectedModel (Options.model options))
      defaultModelName in
  match convertDataStructure messageObject max_tokens response_format
          (samplingOptions options) with
  | JS.Throw e => JS.Throw e
  | JS.Return conv =>
      JS.Return {| r_model := model; r_history := history conv;
                   r_prompt := prompt conv;
                   r_generationConfig := generationConfig conv |}
  end.

(** Lines 101 to 106: the cache is read only under a truthy timeout, and
    only a truthy cached response is returned. *)
Definition lookup (cacheTimeoutSeconds : option Q) (cacheKey : string)
    (w : World) : option JS.Value * World :=
  match cacheTimeoutSeconds with
  | Some ttl =>
      if JS.num_truthy ttl
      then let '(cachedResponse, w') := getFromCache cacheKey w in
           (match cachedResponse with
            | Some v => if JS.truthy v then Some v else None
            | None => None
            end, w')
      else (None, w)
  | None => (None, w)
  end.

Definition retryAttemptsOf (interfaceOptions : InterfaceOptions.t) : Z :=
  JS.or_else JS.int_truthy (InterfaceOptions.retryAttempts interfaceOptions) 0%Z.

(** [sendMessage(message, options = {}, interfaceOptions = {})]. *)
Definition sendMessage (message : MessageArg) (options : Options.t)
    (interfaceOptions : InterfaceOptions.t) (w : World) : Result * World :=
  let cacheTimeoutSeconds :=
    InterfaceOptions.cacheTimeoutSeconds interfaceOptions in
  match buildRequest message options with
  | JS.Throw e => (JS.Throw e, w)
  | JS.Return request =>
      let cacheKey := JSON_stringify request in
      match lookup cacheTimeoutSeconds cacheKey w with
      | (Some cachedResponse, w') => (JS.Return cachedResponse, w')
      | (None, w') =>
          retryLoop interfaceOptions cacheTimeoutSeconds
            (responseFormat options) request cacheKey
            (retryAttemptsOf interfaceOptions) 0 w'
      end
  end.

(** The world after [k] failed attempts, from attempt [currentRetry] on,
    each followed by its backoff delay. *)
Fixpoint afterFailures (interfaceOptions : InterfaceOptions.t)
    (request : Request) (k currentRetry : nat) (w : World) : World :=
  match k with
  | O => w
  | S k' =>
      afterFailures interfaceOptions request k' (S currentRetry)
        (setTimeout (retryDelay interfaceOptions currentRetry)
           (elapse (latency (provider request currentRetry))
              (emit (Invoke request) w)))
  end.

End Adapter.

End Gemini.

(** ** Writer *)

Module Writer.

(** [updateMessageObject] works on the caller's [messages] array in place
    ([shift], [unshift]); arrays therefore live in a store and a message
    object holds a reference to its array. The function assigns to no
    property of the message object or of a message, so those are values. *)
Abbreviation Store := (list (list Message)).

Record MessageObject := { model : option string; messages : nat }.

(** [a.shift()], [a.unshift(m)] and the allocation of a new array. *)
Definition shift (a : nat) (st : Store) : Store :=
  match st !! a with
  | Some (_ :: rest) => <[a := rest]> st
  | _ => st
  end.

Definition unshift (a : nat) (m : Message) (st : Store) : Store :=
  match st !! a with
  | Some arr => <[a := m :: arr]> st
  | None => st
  end.

Definition alloc (arr : list Message) (st : Store) : nat * Store :=
  (length st, st ++ [arr]).

Definition genericGreeting : string := "You are a helpful assistant.".
Definition syntheticUser : Message := {| role := "user"; content := "Hello!" |}.

(** The callback of [messages.map]. *)
Definition relabel (index : nat) (msg : Message) : Message :=
  if (index mod 2 =? 0)%nat
  then {| role := "user"; content := content msg |}
  else {| role := "assistant"; content := content msg |}.

(** [updateMessageObject(messageObject)]. [messages[0].role] throws a
    [TypeError] when the array is empty. *)
Definition updateMessageObject {E} (messageObject : MessageObject) (st : Store)
    : JS.Completion E MessageObject * Store :=
  let messages := messages messageObject in
  match st !! messages with
  | None | Some [] => (JS.Throw JS.TypeError, st)
  | Some (m0 :: _) =>
      let st :=
        if String.eqb (role m0) "system" && String.eqb (content m0) genericGreeting
        then shift messages st else st in
      let st :=
        match st !! messages with
        | Some (m0 :: _) =>
            if String.eqb (role m0) "system"
            then unshift messages syntheticUser st else st
        | _ => st
        end in
      let '(convertedMessages, st) :=
        alloc (imap relabel (default [] (st !! messages))) st in
      (JS.Return {| model := model messageObject;
                    messages := convertedMessages |}, st)
  end.

(** The two leading rewrites as the specification words them: a generic
    system greeting that leads the sequence is dropped; if the first
    message is then still a system message, a synthetic user message is put
    before it. *)
Definition dropGenericGreeting (msgs : list Message) : list Message :=
  match msgs with
  | m0 :: rest =>
      if String.eqb (role m0) "system" && String.eqb (content m0) genericGreeting
      then rest else msgs
  | [] => []
  end.

Definition insertLeadingUser (msgs : list Message) : list Message :=
  match msgs with
  | m0 :: _ =>
      if String.eqb (role m0) "system" then syntheticUser :: msgs else msgs
  | [] => []
  end.

End Writer.

(** ** A JSON reader

    [JSON.parse] is a built-in and a parameter of the adapter. To run the
    adapter on examples this reader stands in for it. It follows the JSON
    grammar (white space, literals, numbers, strings with the simple
    escapes, arrays, objects) and answers [None] where [JSON.parse] throws
    a [SyntaxError]; it also answers [None] on [\u] escapes, which it does
    not decode. *)

Module MiniJSON.


Definition is_ws (c : ascii) : bool :=
  match nat_of_ascii c with
  | 32 | 9 | 10 | 13 => true
  | _ => false
  end.

Fixpoint skip_ws (s : string) : string :=
  match s with
  | String c s' => if is_ws c then skip_ws s' else s
  | EmptyString => s
  end.

Definition digit (c : ascii) : option Z :=
  let n := nat_of_ascii c in
  if (48 <=? n)%nat && (n <=? 57)%nat then Some (Z.of_nat (n - 48)) else None.

(** Reads digits into [acc], counting them. *)
Fixpoint digits (acc : Z) (count : nat) (s : string) : Z * nat * string :=
  match s with
  | String c s' =>
      match digit c with
      | Some d => digits (10 * acc + d) (S count) s'
      | None => (acc, count, s)
      end
  | EmptyString => (acc, count, s)
  end.

Definition pow10 (e : Z) : Q :=
  if (0 <=? e)%Z then inject_Z (10 ^ e) else (1 # Z.to_pos (10 ^ (- e)))%Q.

Definition exponent (s : string) : option (Z * string) :=
  match s with
  | String c s' =>
      if (nat_of_ascii c =? 101)%nat || (nat_of_ascii c =? 69)%nat then
        let '(sign, s'') :=
          match s' with
          | String "+" r => (1%Z, r)
          | String "-" r => ((-1)%Z, r)
          | _ => (1%Z, s')
          end in
        match digits 0 0 s'' with
        | (_, O, _) => None
        | (e, _, r) => Some ((sign * e)%Z, r)
        end
      else Some (0%Z, s)
  | EmptyString => Some (0%Z, s)
  end.

Definition fraction (s : string) : option (Z * nat * string) :=
  match s with
  | String "." s' =>
      match digits 0 0 s' with
      | (_, O, _) => None
      | (f, n, r) => Some (f, n, r)
      end
  | _ => Some (0%Z, O, s)
  end.

(** An optional minus sign, an integer part without leading zeros, an
    optional fraction and an optional exponent. *)
Definition number (s : string) : option (Q * string) :=
  let '(neg, s1) :=
    match s with
    | String "-" r => (true, r)
    | _ => (false, s)
    end in
  let int_part :=
    match s1 with
    | String "0" r => Some (0%Z, r)
    | _ => match digits 0 0 s1 with
           | (_, O, _) => None
           | (i, _, r) => Some (i, r)
           end
    end in
  match int_part with
  | None => None
  | Some (i, s2) =>
      match fraction s2 with
      | None => None
      | Some (f, n, s3) =>
          match exponent s3 with
          | None => None
          | Some (e, s4) =>
              let mantissa := (i * 10 ^ Z.of_nat n + f)%Z in
              let q := (inject_Z mantissa * pow10 (e - Z.of_nat n))%Q in
              Some (Qred (if neg then - q else q)%Q, s4)
          end
      end
  end.

Definition escape (c : ascii) : option ascii :=
  match nat_of_ascii c with
  | 34 => Some c
  | 92 => Some c
  | 47 => Some c
  | 98 => Some (ascii_of_nat 8)
  | 102 => Some (ascii_of_nat 12)
  | 110 => Some (ascii_of_nat 10)
  | 114 => Some (ascii_of_nat 13)
  | 116 => Some (ascii_of_nat 9)
  | _ => None
  end.

(** The characters of a string up to its closing quote. *)
Fixpoint chars (s : string) : option (string * string) :=
  match s with
  | EmptyString => None
  | String c s' =>
      match nat_of_ascii c with
      | 34 => Some (EmptyString, s')
      | 92 =>
          match s' with
          | String e s'' =>
              match escape e, chars s'' with
              | Some c', Some (str, r) => Some (String c' str, r)
              | _, _ => None
              end
          | EmptyString => None
          end
      | n =>
          if (n <? 32)%nat then None
          else match chars s' with
               | Some (str, r) => Some (String c str, r)
               | None => None
               end
      end
  end.

Definition literal (lit : string) (v : JS.Value) (s : string)
    : option (JS.Value * string) :=
  if String.prefix lit s
  then Some (v, String.substring (String.length lit)
                  (String.length s - String.length lit) s)
  else None.

Fixpoint value (fuel : nat) (s : string) : option (JS.Value * string) :=
  match fuel with
  | O => None
  | S fuel =>
      match skip_ws s with
      | EmptyString => None
      | String c r as s0 =>
          match nat_of_ascii c with
          | 91 =>
              match skip_ws r with
              | String "]" r' => Some (JS.Arr [], r')
              | _ => match elements fuel r with
                     | Some (vs, r') => Some (JS.Arr vs, r')
                     | None => None
                     end
              end
          | 123 =>
              match skip_ws r with
              | String "}" r' => Some (JS.Obj [], r')
              | _ => match members fuel r with
                     | Some (fs, r') => Some (JS.Obj fs, r')
                     | None => None
                     end
              end
          | 34 =>
              match chars r with
              | Some (str, r') => Some (JS.Str str, r')
              | None => None
              end
          | 116 => literal "true" (JS.Bool true) s0
          | 102 => literal "false" (JS.Bool false) s0
          | 110 => literal "null" JS.Null s0
          | _ =>
              match number s0 with
              | Some (q, r') => Some (JS.Num q, r')
              | None => None
              end
          end
      end
  end
with elements (fuel : nat) (s : string) : option (list JS.Value * string) :=
  match fuel with
  | O => None
  | S fuel =>
      match value fuel s with
      | Some (v, r) =>
          match skip_ws r with
          | String "," r' =>
              match elements fuel r' with
              | Some (vs, r'') => Some (v :: vs, r'')
              | None => None
              end
          | String "]" r' => Some ([v], r')
          | _ => None
          end
      | None => None
      end
  end
with members (fuel : nat) (s : string)
    : option (list (string * JS.Value) * string) :=
  match fuel with
  | O => None
  | S fuel =>
      match skip_ws s with
      | String c r =>
          if (nat_of_ascii c =? 34)%nat then
            match chars r with
            | Some (key, r1) =>
                match skip_ws r1 with
                | String ":" r2 =>
                    match value fuel r2 with
                    | Some (v, r3) =>
                        match skip_ws r3 with
                        | String "," r4 =>
                            match members fuel r4 with
                            | Some (fs, r5) => Some ((key, v) :: fs, r5)
                            | None => None
                            end
                        | String "}" r4 => Some ([(key, v)], r4)
                        | _ => None
                        end
                    | None => None
                    end
                | _ => None
                end
            | None => None
            end
          else None
      | EmptyString => None
      end
  end.

Definition parse (s : string) : option JS.Value :=
  match value (2 * String.length s + 2) s with
  | Some (v, r) =>
      match skip_ws r with
      | EmptyString => Some v
      | _ => None
      end
  | None => None
  end.

(** The double quote, and a string between double quotes. *)
Definition dq : string := String (ascii_of_nat 34) EmptyString.
Definition quoted (s : string) : string := dq +:+ s +:+ dq.

End MiniJSON.

(** ** Collaborators to run the adapter with

    Stand-ins for what [gemini.js] imports, used to evaluate the model on
    concrete calls. *)

Module Demo.

Import Gemini.

(** Modelled from the spec: [returnMessageObject] of the absent
    [utils/utils] module wraps a bare string into a single [user]
    message. *)
Definition returnMessageObject (s : string) : MessageObject :=
  {| model := None; messages := [ {| role := "user"; content := s |} ] |}.

(** An empty alias table: a model name resolves to itself. *)
Definition returnModelByAlias (interfaceName : string) (m : option string)
    : option string := m.

Definition defaultModelName : string := "gemini-1.5-flash".

Definition showQ (q : Q) : string :=
  pretty (Qnum q) +:+ "/" +:+ pretty (Zpos (Qden q)).

Definition showContent (c : Content) : string :=
  "{role:" +:+ MiniJSON.quoted (c_role c) +:+ ",parts:["
  +:+ String.concat "," (map (fun p => MiniJSON.quoted (text p)) (parts c))
  +:+ "]}".

(** A serialisation of the request, field by field in the order of the
    object literal, standing in for [JSON.stringify]. *)
Definition JSON_stringify (req : Request) : string :=
  let gc := r_generationConfig req in
  "{model:" +:+ MiniJSON.quoted (r_model req)
  +:+ ",history:[" +:+ String.concat "," (map showContent (r_history req))
  +:+ "],prompt:" +:+ MiniJSON.quoted (r_prompt req)
  +:+ ",generationConfig:{temperature:" +:+ showQ (GenerationConfig.temperature gc)
  +:+ ",topP:" +:+ showQ (GenerationConfig.topP gc)
  +:+ ",topK:" +:+ showQ (GenerationConfig.topK gc)
  +:+ ",maxOutputTokens:" +:+ pretty (GenerationConfig.maxOutputTokens gc)
  +:+ ",responseMimeType:"
  +:+ default "undefined" (GenerationConfig.responseMimeType gc) +:+ "}}".

Definition failure (n : nat) : ApiError :=
  {| message := "attempt " +:+ pretty n +:+ " failed"; response_data := None |}.

(** A provider that fails every time, one that answers [raw] every time,
    and one that answers [raw] from its [k]-th invocation on. *)
Definition alwaysFails (req : Request) (n : nat) : Reply :=
  {| outcome := inl (failure n); latency := 1%Q |}.

Definition answers (raw : string) (req : Request) (n : nat) : Reply :=
  {| outcome := inr raw; latency := 1%Q |}.

Definition failsUntil (k : nat) (raw : string) (req : Request) (n : nat) : Reply :=
  if (n <? k)%nat then alwaysFails req n else answers raw req n.

Definition run := sendMessage returnMessageObject returnModelByAlias
  defaultModelName MiniJSON.parse JSON_stringify.

Definition emptyWorld : World := {| cache := ∅; now := 0%Q; trace := [] |}.

Definition hello : MessageObject :=
  {| model := None; messages := [ {| role := "user"; content := "Hello" |} ] |}.

Definition defaultGenerationConfig : GenerationConfig.t :=
  {| GenerationConfig.temperature := (9 # 10)%Q;
     GenerationConfig.topP := 1%Q;
     GenerationConfig.topK := 1%Q;
     GenerationConfig.maxOutputTokens := 150%Z;
     GenerationConfig.responseMimeType := Some "text/plain" |}.

(** The request [hello] is converted to under the default options, and
    under [response_format = "json_object"]. *)
Definition helloRequest : Request :=
  {| r_model := defaultModelName; r_history := []; r_prompt := "Hello";
     r_generationConfig := defaultGenerationConfig |}.

Definition jsonOptions : Options.t :=
  {| Options.model := None; Options.max_tokens := None;
     Options.response_format := Some "json_object";
     Options.temperature := None; Options.topP := None;
     Options.topK := None |}.

Definition helloJsonRequest : Request :=
  {| r_model := defaultModelName; r_history := []; r_prompt := "Hello";
     r_generationConfig :=
       {| GenerationConfig.temperature := (9 # 10)%Q;
          GenerationConfig.topP := 1%Q;
          GenerationConfig.topK := 1%Q;
          GenerationConfig.maxOutputTokens := 150%Z;
          GenerationConfig.responseMimeType := Some "application/json" |} |}.

(** The text [[{"reason":"a"}]]. *)
Definition reasonsJson : string :=
  "[{" +:+ MiniJSON.quoted "reason" +:+ ":" +:+ MiniJSON.quoted "a" +:+ "}]".

(** The world after a first call that was answered and stored its answer
    for 60 seconds, and the entry it stored. *)
Definition warmWorld : World :=
  snd (run (answers "Hi there") (OfObject hello) Options.empty
         (InterfaceOptions.OfNumber 60%Q) emptyWorld).

Definition warmEntry : Cache.Entry :=
  {| Cache.value := JS.Str "Hi there"; Cache.expiresAt := 61%Q |}.

(** A conversation that opens with a system prompt. *)
Definition withSystemPrompt : list Message :=
  [ {| role := "system"; content := "Be terse." |};
    {| role := "user"; content := "Hi" |};
    {| role := "assistant"; content := "Hello" |};
    {| role := "user"; content := "Bye" |} ].

(** A conversation that opens with the generic greeting, alone in the
    store, and the message object that refers to it. *)
Definition greeted : list Message :=
  [ {| role := "system"; content := Writer.genericGreeting |};
    {| role := "user"; content := "Hi" |} ].

Definition greetedObject : Writer.MessageObject :=
  {| Writer.model := None; Writer.messages := 0 |}.

End Demo.

(** ** Further readings of a trace *)

Module GeminiTrace.

Import Gemini.

(** The cache keys read, and the data logged, in order. *)
Fixpoint reads (tr : list Event) : list string :=
  match tr with
  | CacheGet k :: tr' => k :: reads tr'
  | _ :: tr' => reads tr'
  | [] => []
  end.

Fixpoint logs (tr : list Event) : list JS.Value :=
  match tr with
  | LogError d :: tr' => d :: logs tr'
  | _ :: tr' => logs tr'
  | [] => []
  end.

(** What the [if (cacheTimeoutSeconds && text)] of line 132 adds to the
    trace. *)
Definition storeEvents (cacheTimeoutSeconds : option Q) (key : string)
    (v : JS.Value) : list Event :=
  match cacheTimeoutSeconds with
  | Some ttl =>
      if JS.num_truthy ttl && JS.truthy v then [CacheSave key v ttl] else []
  | None => []
  end.

Definition Qsum (l : list Q) : Q := fold_right Qplus 0%Q l.

(** The requests the provider was invoked with, in order. *)
Fixpoint invokes (tr : list Event) : list Request :=
  match tr with
  | Invoke req :: tr' => req :: invokes tr'
  | _ :: tr' => invokes tr'
  | [] => []
  end.

End GeminiTrace.

(** ** The langchain example: [HuggingFaceModel]

    [examples/langchain/models/huggingfaceModel.js]. The facade
    [LLMInterface.sendMessage] it calls is a parameter. [embed], which
    runs its calls under [Promise.all], is not modelled. *)

Module HuggingFaceModel.

(** [v.name] for a property name that no built-in defines ([results],
    [value]): reading it off [null] or [undefined] throws a [TypeError]
    ([None]); an object yields its field, the last one written under the
    name, or [undefined]; any other value yields [undefined]. *)
Fixpoint field (name : string) (fields : list (string * JS.Value))
    : option JS.Value :=
  match fields with
  | [] => None
  | (k, v) :: rest =>
      match field name rest with
      | Some v' => Some v'
      | None => if String.eqb k name then Some v else None
      end
  end.

Definition get (v : JS.Value) (name : string) : option JS.Value :=
  match v with
  | JS.Undefined | JS.Null => None
  | JS.Obj fields => Some (default JS.Undefined (field name fields))
  | _ => Some JS.Undefined
  end.

(** What [this.outputParser] may hold, as [call] tests it: a falsy value,
    a truthy value whose [parse] is not a function, or a parser. *)
Inductive OutputParser (E : Type) :=
| Falsy
| NotAParser
| Parser (parse : JS.Value -> JS.Completion E JS.Value).
Arguments Falsy {E}.
Arguments NotAParser {E}.
Arguments Parser {E} parse.

Record t (E : Type) := {
  apiKey : option string;
  interfaceName : string;
  outputParser : OutputParser E;
  interfaceOptions : Gemini.InterfaceOptions.t }.
Arguments apiKey {E} _.
Arguments interfaceName {E} _.
Arguments outputParser {E} _.
Arguments interfaceOptions {E} _.

(** [this.cache]: no statement of the class assigns this property, so
    reading it yields [undefined]. *)
Definition this_cache : option Q := None.

Definition set_cacheTimeoutSeconds (v : option Q)
    (io : Gemini.InterfaceOptions.t) : Gemini.InterfaceOptions.t :=
  match io with
  | Gemini.InterfaceOptions.OfObject _ r m => Gemini.InterfaceOptions.OfObject v r m
  | Gemini.InterfaceOptions.OfNumber n => io
  end.

(** [constructor(apiKey, cache = false)]; [cache] by its truthiness. *)
Definition new {E} (apiKey : option string) (cache : bool) : t E :=
  let interfaceOptions := Gemini.InterfaceOptions.OfObject None (Some 3%Z) None in
  {| apiKey := apiKey;
     interfaceName := "huggingface";
     outputParser := Falsy;
     interfaceOptions :=
       if cache then set_cacheTimeoutSeconds this_cache interfaceOptions
       else interfaceOptions |}.

(** [pipe(outputParser)] assigns the parser and returns [this]. *)
Definition pipe {E} (p : OutputParser E) (this : t E) : t E :=
  {| apiKey := apiKey this; interfaceName := interfaceName this;
     outputParser := p; interfaceOptions := interfaceOptions this |}.

(** The default of [call]'s [options] parameter. *)
Definition defaultOptions : Gemini.Options.t :=
  {| Gemini.Options.model := Some "default";
     Gemini.Options.max_tokens := Some 1024%Z;
     Gemini.Options.response_format := None;
     Gemini.Options.temperature := None;
     Gemini.Options.topP := None;
     Gemini.Options.topK := None |}.

Section Facade.

Variables (E W : Type).

(** [LLMInterface.sendMessage([name, apiKey], message, options,
    interfaceOptions)] and [LLMInterface.embeddings], of the absent
    [utils/message.js]. *)
Variable LLMInterface_sendMessage :
  string * option string -> JS.Value -> Gemini.Options.t ->
  Gemini.InterfaceOptions.t -> W -> JS.Completion E JS.Value * W.
Variable LLMInterface_embeddings :
  string * option string -> JS.Value -> Gemini.Options.t ->
  Gemini.InterfaceOptions.t -> W -> JS.Completion E JS.Value * W.

(** [call(simplePrompt, options = { max_tokens: 1024, model: 'default' })]. *)
Definition call (this : t E) (simplePrompt : JS.Value)
    (options : option Gemini.Options.t) (w : W)
    : JS.Completion E JS.Value * W :=
  let options := JS.default_to options defaultOptions in
  match LLMInterface_sendMessage (interfaceName this, apiKey this)
          simplePrompt options (interfaceOptions this) w with
  | (JS.Throw e, w') => (JS.Throw e, w')
  | (JS.Return response, w') =>
      match get response "results" with
      | None => (JS.Throw JS.TypeError, w')
      | Some generatedText =>
          match outputParser this with
          | Parser parse => (parse generatedText, w')
          | _ => (JS.Return generatedText, w')
          end
      end
  end.

(** [embedQuery(query, options = {})]. *)
Definition embedQuery (this : t E) (query : JS.Value)
    (options : option Gemini.Options.t) (w : W)
    : JS.Completion E JS.Value * W :=
  let options := JS.default_to options Gemini.Options.empty in
  match LLMInterface_embeddings (interfaceName this, apiKey this)
          query options (interfaceOptions this) w with
  | (JS.Throw e, w') => (JS.Throw e, w')
  | (JS.Return response, w') =>
      match get response "results" with
      | None => (JS.Throw JS.TypeError, w')
      | Some results => (JS.Return results, w')
      end
  end.

(** [invoke(inputs, runManager)]. *)
Definition invoke (this : t E) (inputs : JS.Value) (w : W)
    : JS.Completion E JS.Value * W :=
  match get inputs "value" with
  | None => (JS.Throw JS.TypeError, w)
  | Some simplePrompt => call this simplePrompt None w
  end.

End Facade.

End HuggingFaceModel.

(** * Properties *)

(** ** Traces *)

Lemma invocations_app (a b : list Gemini.Event) :
  Gemini.invocations (a ++ b) = Gemini.invocations a + Gemini.invocations b.
Proof.
  induction a as [|ev a IH]; [reflexivity|].
  destruct ev; simpl; rewrite IH; reflexivity.
Qed.

Lemma delays_app (a b : list Gemini.Event) :
  Gemini.delays (a ++ b) = Gemini.delays a ++ Gemini.delays b.
Proof.
  induction a as [|ev a IH]; [reflexivity|].
  destruct ev; simpl; rewrite IH; reflexivity.
Qed.

Lemma stores_app (a b : list Gemini.Event) :
  Gemini.stores (a ++ b) = Gemini.stores a ++ Gemini.stores b.
Proof.
  induction a as [|ev a IH]; [reflexivity|].
  destruct ev; simpl; rewrite IH; reflexivity.
Qed.

(** ** Truthiness *)

Lemma truthy_not_null (v : JS.Value) :
  JS.truthy v = true -> v <> JS.Null /\ v <> JS.Undefined /\ v <> JS.Str "".
Proof.
  intros H. repeat split; intros ->; discriminate H.
Qed.

Lemma num_truthy_pos (q : Q) : (0 < q)%Q -> JS.num_truthy q = true.
Proof.
  intros H. unfold JS.num_truthy.
  destruct (Qeq_bool q 0) eqn:E; [|reflexivity].
  apply Qeq_bool_eq in E. rewrite E in H. exfalso. exact (Qlt_irrefl 0 H).
Qed.

(** ** The retry loop of [Gemini.sendMessage] *)

Section RetryLoop.

Import Gemini.

Variable JSON_parse : string -> option JS.Value.
Variable provider : Request -> nat -> Reply.
Variable interfaceOptions : InterfaceOptions.t.
Variable cacheTimeoutSeconds : option Q.
Variable response_format : string.
Variable request : Request.
Variable cacheKey : string.

Abbreviation loop := (retryLoop JSON_parse provider interfaceOptions
  cacheTimeoutSeconds response_format request cacheKey).
Abbreviation attempted w n :=
  (elapse (latency (provider request n)) (emit (Invoke request) w)).

(** One turn of the loop. *)
Lemma retryLoop_step (retryAttempts : Z) (currentRetry : nat) (w : World) :
  loop retryAttempts currentRetry w =
  if (retryAttempts <? 0)%Z then (JS.Return JS.Undefined, w)
  else
    match outcome (provider request currentRetry) with
    | inr raw =>
        (JS.Return (reshape JSON_parse response_format raw),
         storeResponse cacheTimeoutSeconds cacheKey
           (reshape JSON_parse response_format raw) (attempted w currentRetry))
    | inl error =>
        if (retryAttempts - 1 <? 0)%Z
        then (JS.Throw (JS.Raised error),
              log_error (errorData error) (attempted w currentRetry))
        else loop (retryAttempts - 1)%Z (S currentRetry)
               (setTimeout (retryDelay interfaceOptions currentRetry)
                  (attempted w currentRetry))
    end.
Proof.
  rewrite retryLoop_equation_1. unfold retryLoop_unfold_clause_1.
  destruct (Z_lt_le_dec retryAttempts 0) as [H|H]; simpl;
    destruct (Z.ltb_spec retryAttempts 0); try lia; reflexivity.
Qed.

Lemma afterFailures_trace (k cr : nat) (w : World) :
  trace (afterFailures provider interfaceOptions request k cr w) =
  trace w ++ flat_map
    (fun i => [Invoke request; Sleep (retryDelay interfaceOptions i)])
    (seq cr k).
Proof.
  revert cr w. induction k as [|k IH]; intros cr w; simpl.
  - rewrite app_nil_r. reflexivity.
  - rewrite IH. simpl. rewrite <- !app_assoc. reflexivity.
Qed.

Lemma afterFailures_cache (k cr : nat) (w : World) :
  cache (afterFailures provider interfaceOptions request k cr w) = cache w.
Proof.
  revert cr w. induction k as [|k IH]; intros cr w; simpl; [reflexivity|].
  rewrite IH. reflexivity.
Qed.

Lemma retries_invocations (f : nat -> Q) (cr k : nat) :
  invocations (flat_map (fun i => [Invoke request; Sleep (f i)]) (seq cr k)) = k.
Proof.
  revert cr. induction k as [|k IH]; intros cr; simpl; [reflexivity|].
  rewrite IH. reflexivity.
Qed.

Lemma retries_delays (f : nat -> Q) (cr k : nat) :
  delays (flat_map (fun i => [Invoke request; Sleep (f i)]) (seq cr k))
  = map f (seq cr k).
Proof.
  revert cr. induction k as [|k IH]; intros cr; simpl; [reflexivity|].
  rewrite IH. reflexivity.
Qed.

Lemma retries_stores (f : nat -> Q) (cr k : nat) :
  stores (flat_map (fun i => [Invoke request; Sleep (f i)]) (seq cr k)) = [].
Proof.
  revert cr. induction k as [|k IH]; intros cr; simpl; [reflexivity|].
  rewrite IH. reflexivity.
Qed.

(** While attempts fail and retries remain, the loop goes on to the next
    attempt. *)
Lemma retryLoop_failures (k : nat) :
  forall (retryAttempts : Z) (cr : nat) (w : World),
    (Z.of_nat k <= retryAttempts)%Z ->
    (forall i, i < k -> exists e, outcome (provider request (cr + i)) = inl e) ->
    loop retryAttempts cr w =
    loop (retryAttempts - Z.of_nat k)%Z (cr + k)
      (afterFailures provider interfaceOptions request k cr w).
Proof.
  induction k as [|k IH]; intros ra cr w Hk Hfail.
  - simpl. rewrite Z.sub_0_r, Nat.add_0_r. reflexivity.
  - rewrite retryLoop_step.
    destruct (Z.ltb_spec ra 0); [lia|].
    destruct (Hfail 0 ltac:(lia)) as [e He].
    rewrite Nat.add_0_r in He. rewrite He.
    destruct (Z.ltb_spec (ra - 1) 0); [lia|].
    rewrite (IH (ra - 1)%Z (S cr)).
    + simpl afterFailures.
      replace (ra - 1 - Z.of_nat k)%Z with (ra - Z.of_nat (S k))%Z by lia.
      replace (S cr + k) with (cr + S k) by lia. reflexivity.
    + lia.
    + intros i Hi. destruct (Hfail (S i) ltac:(lia)) as [e' He'].
      exists e'. replace (S cr + i) with (cr + S i) by lia. exact He'.
Qed.

(** What a run of the loop does, whatever the provider answers: it appends
    to the trace; it invokes the provider at least once when entered; the
    delays it waits are those of retries [currentRetry], [currentRetry + 1],
    ..., one less than the invocations; and it stores at most once, under a
    truthy timeout and with the truthy value it returns. *)
Lemma retryLoop_effects (retryAttempts : Z) (cr : nat) (w : World) :
  exists tr,
    trace (snd (loop retryAttempts cr w)) = trace w ++ tr
    /\ ((0 <= retryAttempts)%Z -> 1 <= invocations tr)
    /\ delays tr = map (retryDelay interfaceOptions) (seq cr (invocations tr - 1))
    /\ ((stores tr = [] /\ cache (snd (loop retryAttempts cr w)) = cache w)
        \/ exists ttl v,
             cacheTimeoutSeconds = Some ttl
             /\ JS.num_truthy ttl = true
             /\ fst (loop retryAttempts cr w) = JS.Return v
             /\ JS.truthy v = true
             /\ stores tr = [(cacheKey, v, ttl)]
             /\ exists t, cache (snd (loop retryAttempts cr w))
                          = Cache.saveToCache t cacheKey v ttl (cache w)).
Proof.
  remember (Z.to_nat (retryAttempts + 1)) as n eqn:Hn.
  revert retryAttempts cr w Hn.
  induction n as [|n IH]; intros ra cr w Hn; rewrite retryLoop_step.
  - destruct (Z.ltb_spec ra 0); [|lia].
    exists []. simpl. rewrite app_nil_r.
    repeat split; [lia | left; split; reflexivity].
  - destruct (Z.ltb_spec ra 0); [lia|].
    destruct (outcome (provider request cr)) as [error|raw].
    + destruct (Z.ltb_spec (ra - 1) 0).
      * exists [Invoke request; LogError (errorData error)]. simpl.
        rewrite <- app_assoc.
        repeat split; [lia | left; split; reflexivity].
      * destruct (IH (ra - 1)%Z (S cr)
          (setTimeout (retryDelay interfaceOptions cr) (attempted w cr))
          ltac:(lia)) as (tr & Htr & Hinv & Hdel & Hst).
        specialize (Hinv ltac:(lia)).
        exists ([Invoke request; Sleep (retryDelay interfaceOptions cr)] ++ tr).
        split; [|split; [|split]].
        -- rewrite Htr. simpl. rewrite <- !app_assoc. reflexivity.
        -- intros _. simpl. lia.
        -- simpl. rewrite Hdel.
           replace (invocations tr - 0) with (S (invocations tr - 1)) by lia.
           reflexivity.
        -- destruct Hst as [[Hs Hc]|(ttl & v & ? & ? & ? & ? & Hs & t & Hc)].
           ++ left. split; [exact Hs | rewrite Hc; reflexivity].
           ++ right. exists ttl, v. repeat split; try assumption.
              exists t. rewrite Hc. reflexivity.
    + unfold storeResponse.
      destruct cacheTimeoutSeconds as [ttl|].
      * destruct (JS.num_truthy ttl) eqn:Ettl;
          [destruct (JS.truthy (reshape JSON_parse response_format raw)) eqn:Ev|].
        -- exists [Invoke request;
                   CacheSave cacheKey (reshape JSON_parse response_format raw) ttl].
           simpl. rewrite <- app_assoc.
           repeat split; [lia|]. right.
           exists ttl, (reshape JSON_parse response_format raw).
           repeat split; try assumption; try reflexivity.
           eexists. reflexivity.
        -- exists [Invoke request]. simpl.
           repeat split; [lia | left; split; reflexivity].
        -- exists [Invoke request]. simpl.
           repeat split; [lia | left; split; reflexivity].
      * exists [Invoke request]. simpl.
        repeat split; [lia | left; split; reflexivity].
Qed.

End RetryLoop.

(** ** [Gemini.sendMessage] *)

Section SendMessage.

Import Gemini.

Variable returnMessageObject : string -> MessageObject.
Variable returnModelByAlias : string -> option string -> option string.
Variable defaultModelName : string.
Variable JSON_parse : string -> option JS.Value.
Variable JSON_stringify : Request -> string.
Variable provider : Request -> nat -> Reply.

Abbreviation build :=
  (buildRequest returnMessageObject returnModelByAlias defaultModelName).
Abbreviation send :=
  (sendMessage returnMessageObject returnModelByAlias defaultModelName
     JSON_parse JSON_stringify provider).
Abbreviation loop io options request :=
  (retryLoop JSON_parse provider io (InterfaceOptions.cacheTimeoutSeconds io)
     (responseFormat options) request (JSON_stringify request)).

(** The cache lookup reads at most once and changes nothing else. *)
Lemma lookup_effects (ttl : option Q) (key : string) (w : World) :
  cache (snd (lookup ttl key w)) = cache w
  /\ now (snd (lookup ttl key w)) = now w
  /\ (trace (snd (lookup ttl key w)) = trace w
      \/ trace (snd (lookup ttl key w)) = trace w ++ [CacheGet key]).
Proof.
  unfold lookup. destruct ttl as [ttl|]; [|simpl; auto].
  destruct (JS.num_truthy ttl); simpl; auto.
Qed.

Lemma lookup_trace (ttl : option Q) (key : string) (w : World) :
  invocations (trace (snd (lookup ttl key w))) = invocations (trace w)
  /\ delays (trace (snd (lookup ttl key w))) = delays (trace w)
  /\ stores (trace (snd (lookup ttl key w))) = stores (trace w).
Proof.
  destruct (lookup_effects ttl key w) as (_ & _ & [-> | ->]); [auto|].
  rewrite invocations_app, delays_app, stores_app. simpl.
  rewrite !app_nil_r, Nat.add_0_r. auto.
Qed.

(** Past a successful conversion and a cache miss, [sendMessage] is its
    retry loop. *)
Lemma sendMessage_miss (message : MessageArg) (options : Options.t)
    (io : InterfaceOptions.t) (w : World) (request : Request) :
  build message options = JS.Return request ->
  fst (lookup (InterfaceOptions.cacheTimeoutSeconds io)
         (JSON_stringify request) w) = None ->
  send message options io w =
  loop io options request (retryAttemptsOf io) 0
    (snd (lookup (InterfaceOptions.cacheTimeoutSeconds io)
            (JSON_stringify request) w)).
Proof.
  intros Hb Hl. unfold sendMessage. rewrite Hb.
  destruct (lookup _ _ w) as [[v|] w']; [discriminate Hl | reflexivity].
Qed.

(** The first attempt to succeed ends the call. *)
Lemma sendMessage_first_success (message : MessageArg) (options : Options.t)
    (io : InterfaceOptions.t) (w : World) (request : Request) (k : nat)
    (raw : string) :
  build message options = JS.Return request ->
  fst (lookup (InterfaceOptions.cacheTimeoutSeconds io)
         (JSON_stringify request) w) = None ->
  (Z.of_nat k <= retryAttemptsOf io)%Z ->
  (forall i, i < k -> exists e, outcome (provider request i) = inl e) ->
  outcome (provider request k) = inr raw ->
  fst (send message options io w)
  = JS.Return (reshape JSON_parse (responseFormat options) raw)
  /\ invocations (trace (snd (send message options io w)))
     = invocations (trace w) + (k + 1).
Proof.
  intros Hb Hl Hk Hfail Hok.
  pose proof (lookup_trace (InterfaceOptions.cacheTimeoutSeconds io)
                (JSON_stringify request) w) as (Hinv & _ & _).
  rewrite (sendMessage_miss _ _ _ _ _ Hb Hl).
  set (w' := snd (lookup _ _ w)) in *.
  rewrite (retryLoop_failures _ _ _ _ _ _ _ k (retryAttemptsOf io) 0 w');
    [|lia|exact Hfail].
  rewrite retryLoop_step.
  destruct (Z.ltb_spec (retryAttemptsOf io - Z.of_nat k) 0); [lia|].
  simpl (0 + k). rewrite Hok.
  split; [reflexivity|]. simpl.
  assert (Hstore : forall v u,
    invocations (trace (storeResponse
      (InterfaceOptions.cacheTimeoutSeconds io) (JSON_stringify request) v u))
    = invocations (trace u)).
  { intros v u. unfold storeResponse.
    destruct (InterfaceOptions.cacheTimeoutSeconds io) as [ttl|]; [|reflexivity].
    destruct (JS.num_truthy ttl && JS.truthy v); [|reflexivity].
    simpl. rewrite invocations_app. simpl. lia. }
  rewrite Hstore. simpl.
  rewrite afterFailures_trace, !invocations_app.
  rewrite retries_invocations, Hinv. simpl. lia.
Qed.

(** When every attempt fails, the call throws the error of the last one. *)
Lemma sendMessage_exhausted (message : MessageArg) (options : Options.t)
    (io : InterfaceOptions.t) (w : World) (request : Request) (N : nat)
    (errors : nat -> ApiError) :
  build message options = JS.Return request ->
  fst (lookup (InterfaceOptions.cacheTimeoutSeconds io)
         (JSON_stringify request) w) = None ->
  retryAttemptsOf io = Z.of_nat N ->
  (forall i, i <= N -> outcome (provider request i) = inl (errors i)) ->
  fst (send message options io w) = JS.Throw (JS.Raised (errors N))
  /\ invocations (trace (snd (send message options io w)))
     = invocations (trace w) + (N + 1).
Proof.
  intros Hb Hl HN Hfail.
  pose proof (lookup_trace (InterfaceOptions.cacheTimeoutSeconds io)
                (JSON_stringify request) w) as (Hinv & _ & _).
  rewrite (sendMessage_miss _ _ _ _ _ Hb Hl), HN.
  set (w' := snd (lookup _ _ w)) in *.
  rewrite (retryLoop_failures _ _ _ _ _ _ _ N (Z.of_nat N) 0 w');
    [|lia|intros i Hi; exists (errors i); apply Hfail; lia].
  rewrite retryLoop_step.
  destruct (Z.ltb_spec (Z.of_nat N - Z.of_nat N) 0); [lia|].
  simpl (0 + N). rewrite (Hfail N (le_n N)).
  destruct (Z.ltb_spec (Z.of_nat N - Z.of_nat N - 1) 0); [|lia].
  split; [reflexivity|]. simpl.
  rewrite afterFailures_trace, <- !app_assoc, !invocations_app.
  rewrite retries_invocations, Hinv. simpl. lia.
Qed.

(** X7. Under a negative [retryAttempts] the loop is not entered: the
    provider is not invoked and the call returns [undefined]. *)
Lemma sendMessage_negative_retryAttempts (message : MessageArg)
    (options : Options.t) (io : InterfaceOptions.t) (w : World)
    (request : Request) :
  build message options = JS.Return request ->
  fst (lookup (InterfaceOptions.cacheTimeoutSeconds io)
         (JSON_stringify request) w) = None ->
  (retryAttemptsOf io < 0)%Z ->
  fst (send message options io w) = JS.Return JS.Undefined
  /\ invocations (trace (snd (send message options io w)))
     = invocations (trace w).
Proof.
  intros Hb Hl Hneg.
  pose proof (lookup_trace (InterfaceOptions.cacheTimeoutSeconds io)
                (JSON_stringify request) w) as (Hinv & _ & _).
  rewrite (sendMessage_miss _ _ _ _ _ Hb Hl), retryLoop_step.
  destruct (Z.ltb_spec (retryAttemptsOf io) 0); [|lia].
  split; [reflexivity | exact Hinv].
Qed.

(** C1. When the conversion succeeds and the cache does not answer, with
    [retryAttempts = N] (0 when it is not supplied): if the provider fails
    on each of the attempts 0 to N, [sendMessage] invokes it exactly
    [N + 1] times and throws the error of the last attempt; and if the
    first attempt to succeed is attempt [k <= N], it invokes the provider
    exactly [k + 1] times and returns the reshaped answer, so that no
    attempt follows a success. *)
Theorem sendMessage_retry_attempts (message : MessageArg)
    (options : Options.t) (io : InterfaceOptions.t) (w : World)
    (request : Request) (N : nat) :
  build message options = JS.Return request ->
  fst (lookup (InterfaceOptions.cacheTimeoutSeconds io)
         (JSON_stringify request) w) = None ->
  retryAttemptsOf io = Z.of_nat N ->
  (InterfaceOptions.retryAttempts io = None -> N = 0)
  /\ (forall errors : nat -> ApiError,
        (forall i, i <= N -> outcome (provider request i) = inl (errors i)) ->
        fst (send message options io w) = JS.Throw (JS.Raised (errors N))
        /\ invocations (trace (snd (send message options io w)))
           = invocations (trace w) + (N + 1))
  /\ (forall (k : nat) (raw : string),
        k <= N ->
        (forall i, i < k -> exists e, outcome (provider request i) = inl e) ->
        outcome (provider request k) = inr raw ->
        fst (send message options io w)
        = JS.Return (reshape JSON_parse (responseFormat options) raw)
        /\ invocations (trace (snd (send message options io w)))
           = invocations (trace w) + (k + 1)).
Proof.
  intros Hb Hl HN. split; [|split].
  - intros Hnone. unfold retryAttemptsOf in HN. rewrite Hnone in HN.
    simpl in HN. lia.
  - intros errors Hfail.
    exact (sendMessage_exhausted _ _ _ _ _ _ _ Hb Hl HN Hfail).
  - intros k raw Hk Hfail Hok.
    apply (sendMessage_first_success _ _ _ _ request k raw Hb Hl); try assumption.
    rewrite HN. lia.
Qed.

(** What a call does to the trace and the cache, whatever its inputs. *)
Lemma sendMessage_effects (message : MessageArg) (options : Options.t)
    (io : InterfaceOptions.t) (w : World) :
  let r := send message options io w in
  delays (trace (snd r))
  = delays (trace w)
    ++ map (retryDelay io)
         (seq 0 (invocations (trace (snd r)) - invocations (trace w) - 1))
  /\ ((stores (trace (snd r)) = stores (trace w) /\ cache (snd r) = cache w)
      \/ exists request ttl v,
           build message options = JS.Return request
           /\ InterfaceOptions.cacheTimeoutSeconds io = Some ttl
           /\ JS.num_truthy ttl = true
           /\ fst r = JS.Return v
           /\ JS.truthy v = true
           /\ stores (trace (snd r))
              = stores (trace w) ++ [(JSON_stringify request, v, ttl)]
           /\ exists t, cache (snd r)
                = Cache.saveToCache t (JSON_stringify request) v ttl (cache w)).
Proof.
  unfold sendMessage.
  destruct (build message options) as [request|e].
  - pose proof (lookup_trace (InterfaceOptions.cacheTimeoutSeconds io)
                  (JSON_stringify request) w) as (Hinv & Hdel & Hst).
    pose proof (lookup_effects (InterfaceOptions.cacheTimeoutSeconds io)
                  (JSON_stringify request) w) as (Hc & _ & _).
    destruct (lookup _ _ w) as [[v|] w']; simpl in Hinv, Hdel, Hst, Hc.
    + simpl. rewrite Hinv, Hdel, Nat.sub_diag. simpl. rewrite app_nil_r.
      split; [reflexivity | left; split; assumption].
    + cbv zeta.
      destruct (retryLoop_effects JSON_parse provider io
        (InterfaceOptions.cacheTimeoutSeconds io) (responseFormat options)
        request (JSON_stringify request) (retryAttemptsOf io) 0 w')
        as (tr & Htr & _ & Hd & Hs).
      rewrite Htr, invocations_app, delays_app, stores_app.
      rewrite Hinv, Hdel, Hst, Hd.
      replace (invocations (trace w) + invocations tr - invocations (trace w))
        with (invocations tr) by lia.
      split; [reflexivity|].
      destruct Hs as [[Hs Hc']|(ttl & v & ? & ? & ? & ? & Hs & t & Hc')].
      * left. rewrite Hs, app_nil_r, Hc', Hc. split; reflexivity.
      * right. exists request, ttl, v. rewrite Hs, Hc', Hc.
        repeat split; try assumption. exists t. reflexivity.
  - simpl. rewrite Nat.sub_diag. simpl. rewrite app_nil_r.
    split; [reflexivity | left; split; reflexivity].
Qed.


(** A usable cached response is returned at once. *)
Lemma sendMessage_hit (message : MessageArg) (options : Options.t)
    (io : InterfaceOptions.t) (w : World) (request : Request) (ttl : Q)
    (entry : Cache.Entry) :
  build message options = JS.Return request ->
  InterfaceOptions.cacheTimeoutSeconds io = Some ttl ->
  JS.num_truthy ttl = true ->
  cache w !! JSON_stringify request = Some entry ->
  (now w <= Cache.expiresAt entry)%Q ->
  JS.truthy (Cache.value entry) = true ->
  send message options io w
  = (JS.Return (Cache.value entry),
     emit (CacheGet (JSON_stringify request)) w).
Proof.
  intros Hb Httl Ht Hentry Hfresh Hv.
  unfold sendMessage, lookup, getFromCache, Cache.getFromCache.
  rewrite Hb, Httl, Ht, Hentry.
  destruct (Qlt_le_dec (Cache.expiresAt entry) (now w)) as [Hexp|_].
  { exfalso. exact (Qlt_not_le _ _ Hexp Hfresh). }
  rewrite Hv. reflexivity.
Qed.

(** C3. With a truthy cache timeout, when the cache holds under the key of
    the request an entry that has not expired and whose value is truthy
    (as every value [sendMessage] stores is), [sendMessage] returns that
    value; it reads the cache and does nothing else: no provider
    invocation, no delay, no store, no log. *)
Theorem sendMessage_cache_hit (message : MessageArg) (options : Options.t)
    (io : InterfaceOptions.t) (w : World) (request : Request) (ttl : Q)
    (entry : Cache.Entry) :
  build message options = JS.Return request ->
  InterfaceOptions.cacheTimeoutSeconds io = Some ttl ->
  JS.num_truthy ttl = true ->
  cache w !! JSON_stringify request = Some entry ->
  (now w <= Cache.expiresAt entry)%Q ->
  JS.truthy (Cache.value entry) = true ->
  let r := send message options io w in
  fst r = JS.Return (Cache.value entry)
  /\ trace (snd r) = trace w ++ [CacheGet (JSON_stringify request)]
  /\ invocations (trace (snd r)) = invocations (trace w)
  /\ delays (trace (snd r)) = delays (trace w)
  /\ stores (trace (snd r)) = stores (trace w)
  /\ cache (snd r) = cache w.
Proof.
  intros Hb Httl Ht Hentry Hfresh Hv r. subst r.
  rewrite (sendMessage_hit _ _ _ _ _ _ _ Hb Httl Ht Hentry Hfresh Hv). simpl.
  rewrite invocations_app, delays_app, stores_app. simpl.
  rewrite !app_nil_r, Nat.add_0_r. repeat split; reflexivity.
Qed.

(** C4. A call stores in the cache at most once, and only under a truthy
    cache timeout and with the value it returns, which is then truthy:
    neither [null] nor the empty string. Hence the cache is left as it
    was when the call throws, when it returns [null] (as it does when the
    JSON parse fails) and when no timeout is supplied. *)
Theorem sendMessage_cache_store (message : MessageArg) (options : Options.t)
    (io : InterfaceOptions.t) (w : World) :
  let r := send message options io w in
  ((stores (trace (snd r)) = stores (trace w) /\ cache (snd r) = cache w)
   \/ exists request ttl v,
        build message options = JS.Return request
        /\ InterfaceOptions.cacheTimeoutSeconds io = Some ttl
        /\ JS.num_truthy ttl = true
        /\ fst r = JS.Return v
        /\ JS.truthy v = true
        /\ v <> JS.Null /\ v <> JS.Undefined /\ v <> JS.Str ""
        /\ stores (trace (snd r))
           = stores (trace w) ++ [(JSON_stringify request, v, ttl)]
        /\ exists t, cache (snd r)
             = Cache.saveToCache t (JSON_stringify request) v ttl (cache w))
  /\ ((exists e, fst r = JS.Throw e) ->
      stores (trace (snd r)) = stores (trace w) /\ cache (snd r) = cache w)
  /\ (fst r = JS.Return JS.Null ->
      stores (trace (snd r)) = stores (trace w) /\ cache (snd r) = cache w)
  /\ (InterfaceOptions.cacheTimeoutSeconds io = None ->
      stores (trace (snd r)) = stores (trace w) /\ cache (snd r) = cache w).
Proof.
  intros r.
  destruct (sendMessage_effects message options io w) as (_ & Hs).
  fold r in Hs.
  split; [|split; [|split]].
  - destruct Hs as [Hs|(request & ttl & v & Hb & Httl & Ht & Hr & Hv & Hst & Hc)];
      [left; exact Hs|].
    right. exists request, ttl, v.
    destruct (truthy_not_null v Hv) as (? & ? & ?).
    repeat split; assumption.
  - intros [e He].
    destruct Hs as [Hs|(request & ttl & v & _ & _ & _ & Hr & _)]; [exact Hs|].
    rewrite He in Hr. discriminate Hr.
  - intros Hnull.
    destruct Hs as [Hs|(request & ttl & v & _ & _ & _ & Hr & Hv & _)];
      [exact Hs|].
    rewrite Hnull in Hr. injection Hr as <-. discriminate Hv.
  - intros Hnone.
    destruct Hs as [Hs|(request & ttl & v & _ & Httl & _)]; [exact Hs|].
    rewrite Hnone in Httl. discriminate Httl.
Qed.

(** C5. With [response_format = "json_object"], when the provider answers
    (the conversion having succeeded and the cache not having answered):
    if the raw text does not parse as JSON, [sendMessage] returns [null]
    and does not throw; if it parses, [sendMessage] returns the parsed
    value. *)
Theorem sendMessage_json_object (message : MessageArg) (options : Options.t)
    (io : InterfaceOptions.t) (w : World) (request : Request) (k : nat)
    (raw : string) :
  Options.response_format options = Some "json_object" ->
  build message options = JS.Return request ->
  fst (lookup (InterfaceOptions.cacheTimeoutSeconds io)
         (JSON_stringify request) w) = None ->
  (Z.of_nat k <= retryAttemptsOf io)%Z ->
  (forall i, i < k -> exists e, outcome (provider request i) = inl e) ->
  outcome (provider request k) = inr raw ->
  (JSON_parse raw = None ->
   fst (send message options io w) = JS.Return JS.Null)
  /\ (forall v, JSON_parse raw = Some v ->
      fst (send message options io w) = JS.Return v).
Proof.
  intros Hrf Hb Hl Hk Hfail Hok.
  destruct (sendMessage_first_success _ _ _ _ request k raw Hb Hl Hk Hfail Hok)
    as (Hres & _).
  rewrite Hres. unfold reshape, responseFormat. rewrite Hrf. simpl.
  split.
  - intros ->. reflexivity.
  - intros v ->. reflexivity.
Qed.

End SendMessage.

(** ** Generation parameters of [Gemini.sendMessage] *)

(** A caller's [max_tokens] always reaches the request, 0 included; a
    caller's temperature, [topP] or [topK] reaches it when it is not 0. *)
Lemma samplingOptions_caller_wins (options : Gemini.Options.t) (t : Q) :
  Gemini.Options.temperature options = Some t ->
  JS.num_truthy t = true ->
  Gemini.SamplingOptions.temperature (Gemini.samplingOptions options) = t.
Proof.
  intros H Ht. unfold Gemini.samplingOptions. simpl. rewrite H. simpl.
  rewrite Ht. reflexivity.
Qed.

Lemma samplingOptions_defaults :
  Gemini.samplingOptions Gemini.Options.empty
  = {| Gemini.SamplingOptions.temperature := (9 # 10)%Q;
       Gemini.SamplingOptions.topP := 1%Q;
       Gemini.SamplingOptions.topK := 1%Q |}.
Proof. reflexivity. Qed.

(** C8, at [options = { temperature: 0, max_tokens: 0 }]: the request
    carries the caller's [maxOutputTokens = 0] but the default temperature
    0.9 in place of the caller's 0. *)
Theorem zero_temperature_replaced_by_default :
  exists request,
    Gemini.buildRequest Demo.returnMessageObject Demo.returnModelByAlias
      Demo.defaultModelName (Gemini.OfObject Demo.hello)
      {| Gemini.Options.model := None;
         Gemini.Options.max_tokens := Some 0%Z;
         Gemini.Options.response_format := None;
         Gemini.Options.temperature := Some 0%Q;
         Gemini.Options.topP := None;
         Gemini.Options.topK := None |}
    = JS.Return request
    /\ Gemini.GenerationConfig.maxOutputTokens
         (Gemini.r_generationConfig request) = 0%Z
    /\ Gemini.GenerationConfig.temperature
         (Gemini.r_generationConfig request) = (9 # 10)%Q.
Proof.
  eexists. split; [reflexivity|]. split; reflexivity.
Qed.

(** ** [Writer.updateMessageObject] *)

Section WriterProperties.

Import Writer.

Lemma even_mod2 (i : nat) : Nat.even i = (i mod 2 =? 0).
Proof.
  destruct (Nat.even i) eqn:E; symmetry.
  - apply Nat.even_spec in E. destruct E as [k ->].
    apply Nat.eqb_eq. rewrite Nat.mul_comm. apply Nat.Div0.mod_mul.
  - assert (Ho : Nat.odd i = true) by (rewrite <- Nat.negb_even, E; reflexivity).
    apply Nat.odd_spec in Ho. destruct Ho as [k ->].
    apply Nat.eqb_neq.
    rewrite Nat.add_comm, Nat.mul_comm, Nat.Div0.mod_add. discriminate.
Qed.

Lemma relabel_role (i : nat) (msg : Message) :
  role (relabel i msg) = if Nat.even i then "user" else "assistant".
Proof.
  unfold relabel. rewrite even_mod2. destruct (i mod 2 =? 0); reflexivity.
Qed.

Lemma relabel_content (i : nat) (msg : Message) :
  content (relabel i msg) = content msg.
Proof. unfold relabel. destruct (i mod 2 =? 0); reflexivity. Qed.

Lemma relabel_alternating (msgs : list Message) :
  Alternating (map role (imap relabel msgs)).
Proof.
  intros i r H.
  change (map role (imap relabel msgs)) with (role <$> imap relabel msgs) in H.
  rewrite list_lookup_fmap, list_lookup_imap in H.
  destruct (msgs !! i) as [msg|]; [|discriminate H].
  simpl in H. injection H as <-. apply relabel_role.
Qed.

Lemma relabel_contents (msgs : list Message) :
  map content (imap relabel msgs) = map content msgs.
Proof.
  change (content <$> imap relabel msgs = content <$> msgs).
  rewrite fmap_imap, <- imap_const.
  apply imap_ext. intros i msg _. apply relabel_content.
Qed.

(** What the function returns and what it leaves in the store: the
    caller's array holds the rewritten sequence, and a new array, at the
    end of the store, holds it relabelled. *)
Lemma updateMessageObject_run {E} (mo : MessageObject) (st : Store)
    (m0 : Message) (rest : list Message) :
  st !! messages mo = Some (m0 :: rest) ->
  let rewritten := insertLeadingUser (dropGenericGreeting (m0 :: rest)) in
  updateMessageObject (E := E) mo st
  = (JS.Return {| model := model mo; messages := length st |},
     <[messages mo := rewritten]> st ++ [imap relabel rewritten]).
Proof.
  intros H rewritten. subst rewritten.
  pose proof (lookup_lt_Some _ _ _ H) as Hlt.
  unfold updateMessageObject, dropGenericGreeting. rewrite H.
  destruct (String.eqb (role m0) "system"
            && String.eqb (content m0) genericGreeting) eqn:Edrop.
  - unfold shift. rewrite H, list_lookup_insert_eq by exact Hlt.
    destruct rest as [|m1 rest]; simpl insertLeadingUser.
    + rewrite list_lookup_insert_eq by exact Hlt.
      unfold alloc. simpl. rewrite length_insert. reflexivity.
    + destruct (String.eqb (role m1) "system").
      * unfold unshift. rewrite list_lookup_insert_eq by exact Hlt.
        rewrite list_insert_insert_eq, list_lookup_insert_eq by exact Hlt.
        unfold alloc. simpl default. rewrite length_insert. reflexivity.
      * rewrite list_lookup_insert_eq by exact Hlt.
        unfold alloc. simpl default. rewrite length_insert. reflexivity.
  - rewrite H. simpl insertLeadingUser.
    destruct (String.eqb (role m0) "system").
    + unfold unshift. rewrite H, list_lookup_insert_eq by exact Hlt.
      unfold alloc. simpl default. rewrite length_insert. reflexivity.
    + rewrite H. unfold alloc. simpl default.
      rewrite (list_insert_id _ _ _ H). reflexivity.
Qed.

(** The returned object refers to the new array. *)
Lemma updateMessageObject_result {E} (mo : MessageObject) (st : Store)
    (m0 : Message) (rest : list Message) :
  st !! messages mo = Some (m0 :: rest) ->
  exists mo' st',
    updateMessageObject (E := E) mo st = (JS.Return mo', st')
    /\ st' !! messages mo'
       = Some (imap relabel (insertLeadingUser (dropGenericGreeting (m0 :: rest)))).
Proof.
  intros H. rewrite (updateMessageObject_run mo st m0 rest H).
  eexists _, _. split; [reflexivity|]. simpl.
  rewrite lookup_app_r by (rewrite length_insert; lia).
  rewrite length_insert, Nat.sub_diag. reflexivity.
Qed.

(** C7. On a non-empty conversation [updateMessageObject] returns an
    object whose messages are the caller's, with a leading generic system
    greeting dropped, then a synthetic user message put first if the first
    message is still a system message, and then relabelled by position;
    the contents are otherwise kept. A conversation whose first message is
    not a system message undergoes neither rewrite. *)
Theorem updateMessageObject_leading_rewrites {E} (mo : MessageObject)
    (st : Store) (m0 : Message) (rest : list Message) :
  st !! messages mo = Some (m0 :: rest) ->
  exists mo' st' out,
    updateMessageObject (E := E) mo st = (JS.Return mo', st')
    /\ st' !! messages mo' = Some out
    /\ out = imap relabel (insertLeadingUser (dropGenericGreeting (m0 :: rest)))
    /\ map content out
       = map content (insertLeadingUser (dropGenericGreeting (m0 :: rest)))
    /\ (role m0 <> "system" ->
        out = imap relabel (m0 :: rest)
        /\ map content out = map content (m0 :: rest)).
Proof.
  intros H.
  destruct (updateMessageObject_result (E := E) mo st m0 rest H)
    as (mo' & st' & Hrun & Hout).
  exists mo', st', (imap relabel (insertLeadingUser (dropGenericGreeting (m0 :: rest)))).
  split; [exact Hrun|]. split; [exact Hout|]. split; [reflexivity|].
  split; [apply relabel_contents|].
  intros Hrole.
  assert (Hs : String.eqb (role m0) "system" = false)
    by (apply String.eqb_neq; exact Hrole).
  unfold dropGenericGreeting, insertLeadingUser. rewrite Hs. simpl.
  rewrite Hs. split; [reflexivity|].
  apply (relabel_contents (m0 :: rest)).
Qed.

(** C6, as the code has it. [Writer.updateMessageObject] returns, for a
    non-empty conversation, messages whose roles alternate [user],
    [assistant], ... from [user]. [Gemini.convertDataStructure] makes the
    first entry of the history a [user] entry and keeps the role of every
    other entry as the caller gave it. *)
Theorem normalized_roles :
  (forall (E : Type) (mo : MessageObject) (st : Store) (m0 : Message)
          (rest : list Message),
      st !! messages mo = Some (m0 :: rest) ->
      exists mo' st' out,
        updateMessageObject (E := E) mo st = (JS.Return mo', st')
        /\ st' !! messages mo' = Some out
        /\ Alternating (map role out))
  /\ (forall (E : Type) (input : Gemini.MessageObject) (maxTokens : Z)
             (responseFormat : string)
             (generationConfigOptions : Gemini.SamplingOptions.t)
             (conv : Gemini.Converted),
        Gemini.convertDataStructure (E := E) input maxTokens responseFormat
          generationConfigOptions = JS.Return conv ->
        (forall c, head (Gemini.history conv) = Some c ->
                   Gemini.c_role c = "user")
        /\ map Gemini.c_role (tail (Gemini.history conv))
           = map role (tail (removelast (Gemini.messages input)))).
Proof.
  split.
  - intros E mo st m0 rest H.
    destruct (updateMessageObject_result (E := E) mo st m0 rest H)
      as (mo' & st' & Hrun & Hout).
    eexists mo', st', _. split; [exact Hrun|]. split; [exact Hout|].
    apply relabel_alternating.
  - intros E input maxTokens rf gco conv.
    unfold Gemini.convertDataStructure.
    destruct (last (Gemini.messages input)); [|discriminate].
    intros [= <-]. simpl.
    destruct (removelast (Gemini.messages input)) as [|m0 pre]; simpl.
    + split; [intros c Hc; discriminate Hc | reflexivity].
    + destruct (String.eqb (role m0) "user") eqn:Eu; simpl.
      * rewrite map_map. split; [|reflexivity].
        intros c [= <-]. apply String.eqb_eq. exact Eu.
      * rewrite map_map. split; [|reflexivity].
        intros c [= <-]. reflexivity.
Qed.

(** C6, as stated, fails for Gemini: a conversation that opens with a
    system prompt is converted to a history with roles [user], [user],
    [assistant]. *)
Lemma gemini_history_not_alternating :
  exists conv,
    Gemini.convertDataStructure (E := ApiError)
      {| Gemini.model := None; Gemini.messages := Demo.withSystemPrompt |}
      150%Z "text/plain" (Gemini.samplingOptions Gemini.Options.empty)
    = JS.Return conv
    /\ map Gemini.c_role (Gemini.history conv) = ["user"; "user"; "assistant"]
    /\ ~ Alternating (map Gemini.c_role (Gemini.history conv)).
Proof.
  eexists. split; [reflexivity|]. split; [reflexivity|].
  intros Halt. specialize (Halt 1 "user" eq_refl). discriminate Halt.
Qed.

(** C9, at a conversation that opens with the generic greeting: after the
    call the caller's own array has lost its first message. *)
Theorem updateMessageObject_mutates_caller :
  exists mo' st',
    updateMessageObject (E := ApiError) Demo.greetedObject [Demo.greeted]
    = (JS.Return mo', st')
    /\ [Demo.greeted] !! messages Demo.greetedObject = Some Demo.greeted
    /\ st' !! messages Demo.greetedObject
       = Some [ {| role := "user"; content := "Hi" |} ]
    /\ st' !! messages Demo.greetedObject
       <> [Demo.greeted] !! messages Demo.greetedObject.
Proof.
  eexists _, _. split; [reflexivity|]. split; [reflexivity|].
  split; [reflexivity|]. discriminate.
Qed.

(** X10. The call leaves every other array of the store as it was, and
    the caller's too when the conversation does not open with a system
    message. *)
Lemma updateMessageObject_frame {E} (mo : MessageObject) (st : Store)
    (m0 : Message) (rest : list Message) :
  st !! messages mo = Some (m0 :: rest) ->
  (forall a, a <> messages mo -> a < length st ->
     snd (updateMessageObject (E := E) mo st) !! a = st !! a)
  /\ (role m0 <> "system" ->
      snd (updateMessageObject (E := E) mo st) !! messages mo = st !! messages mo).
Proof.
  intros H. pose proof (lookup_lt_Some _ _ _ H) as Hlt.
  rewrite (updateMessageObject_run mo st m0 rest H). simpl. split.
  - intros a Ha Hal.
    rewrite lookup_app_l by (rewrite length_insert; exact Hal).
    apply list_lookup_insert_ne. congruence.
  - intros Hrole.
    assert (Hs : String.eqb (role m0) "system" = false)
      by (apply String.eqb_neq; exact Hrole).
    rewrite lookup_app_l by (rewrite length_insert; exact Hlt).
    rewrite list_lookup_insert_eq by exact Hlt.
    unfold dropGenericGreeting, insertLeadingUser. rewrite Hs. simpl.
    rewrite Hs. symmetry. exact H.
Qed.

End WriterProperties.

(** ** The properties at concrete calls *)

Section Instances.

Import Gemini.

Abbreviation demo_args P :=
  (P Demo.returnMessageObject Demo.returnModelByAlias Demo.defaultModelName
     MiniJSON.parse Demo.JSON_stringify).

(** Three attempts under [retryAttempts = 2] against a provider that
    always fails; two against one that answers from its second invocation
    on. *)
Lemma sendMessage_retry_attempts_witness :
  let io := InterfaceOptions.OfObject None (Some 2%Z) None in
  let failed :=
    Demo.run Demo.alwaysFails (OfObject Demo.hello) Options.empty io
      Demo.emptyWorld in
  let answered :=
    Demo.run (Demo.failsUntil 1 "Hi") (OfObject Demo.hello) Options.empty io
      Demo.emptyWorld in
  retryAttemptsOf io = 2%Z
  /\ (fst failed = JS.Throw (JS.Raised (Demo.failure 2))
      /\ invocations (trace (snd failed)) = 3)
  /\ (fst answered = JS.Return (JS.Str "Hi")
      /\ invocations (trace (snd answered)) = 2).
Proof.
  cbv zeta. split; [reflexivity|].
  split.
  - destruct (demo_args sendMessage_retry_attempts Demo.alwaysFails
                (OfObject Demo.hello) Options.empty
                (InterfaceOptions.OfObject None (Some 2%Z) None)
                Demo.emptyWorld Demo.helloRequest 2 eq_refl eq_refl eq_refl)
      as (_ & Hfail & _).
    exact (Hfail Demo.failure (fun i _ => eq_refl)).
  - destruct (demo_args sendMessage_retry_attempts (Demo.failsUntil 1 "Hi")
                (OfObject Demo.hello) Options.empty
                (InterfaceOptions.OfObject None (Some 2%Z) None)
                Demo.emptyWorld Demo.helloRequest 2 eq_refl eq_refl eq_refl)
      as (_ & _ & Hok).
    apply (Hok 1 "Hi"); [lia | | reflexivity].
    intros i Hi. exists (Demo.failure i).
    destruct i as [|i]; [reflexivity | lia].
Defined.


(** A second call, in the world the first one left, is answered from the
    cache although the provider would now fail. *)
Lemma sendMessage_cache_hit_witness :
  let r :=
    Demo.run Demo.alwaysFails (OfObject Demo.hello) Options.empty
      (InterfaceOptions.OfNumber 60%Q) Demo.warmWorld in
  cache Demo.warmWorld !! Demo.JSON_stringify Demo.helloRequest
  = Some Demo.warmEntry
  /\ (now Demo.warmWorld <= Cache.expiresAt Demo.warmEntry)%Q
  /\ fst r = JS.Return (JS.Str "Hi there")
  /\ trace (snd r)
     = trace Demo.warmWorld ++ [CacheGet (Demo.JSON_stringify Demo.helloRequest)]
  /\ invocations (trace (snd r)) = invocations (trace Demo.warmWorld)
  /\ delays (trace (snd r)) = delays (trace Demo.warmWorld)
  /\ stores (trace (snd r)) = stores (trace Demo.warmWorld)
  /\ cache (snd r) = cache Demo.warmWorld.
Proof.
  cbv zeta.
  assert (Hentry : cache Demo.warmWorld !! Demo.JSON_stringify Demo.helloRequest
                   = Some Demo.warmEntry) by (vm_compute; reflexivity).
  assert (Hfresh : (now Demo.warmWorld <= Cache.expiresAt Demo.warmEntry)%Q)
    by (vm_compute; discriminate).
  split; [exact Hentry|]. split; [exact Hfresh|].
  exact (demo_args sendMessage_cache_hit Demo.alwaysFails
           (OfObject Demo.hello) Options.empty (InterfaceOptions.OfNumber 60%Q)
           Demo.warmWorld Demo.helloRequest 60%Q Demo.warmEntry
           eq_refl eq_refl eq_refl Hentry Hfresh eq_refl).
Defined.

(** The call that produced the warm world stored its answer; a call whose
    provider fails leaves the cache as it was. *)
Lemma sendMessage_cache_store_witness :
  let failed :=
    Demo.run Demo.alwaysFails (OfObject Demo.hello) Options.empty
      (InterfaceOptions.OfNumber 60%Q) Demo.emptyWorld in
  stores (trace Demo.warmWorld)
  = [(Demo.JSON_stringify Demo.helloRequest, JS.Str "Hi there", 60%Q)]
  /\ stores (trace (snd failed)) = stores (trace Demo.emptyWorld)
  /\ cache (snd failed) = cache Demo.emptyWorld.
Proof.
  cbv zeta. split; [vm_compute; reflexivity|].
  destruct (demo_args sendMessage_cache_store Demo.alwaysFails
              (OfObject Demo.hello) Options.empty
              (InterfaceOptions.OfNumber 60%Q) Demo.emptyWorld)
    as (_ & Hthrow & _).
  apply Hthrow. eexists. reflexivity.
Defined.

(** The two examples of the specification: [[{"reason":"a"}]] is returned
    parsed, and [{not valid json] yields [null]. *)
Lemma sendMessage_json_object_witness :
  let run raw :=
    Demo.run (Demo.answers raw) (OfObject Demo.hello) Demo.jsonOptions
      InterfaceOptions.empty Demo.emptyWorld in
  MiniJSON.parse Demo.reasonsJson
  = Some (JS.Arr [JS.Obj [("reason", JS.Str "a")]])
  /\ fst (run Demo.reasonsJson)
     = JS.Return (JS.Arr [JS.Obj [("reason", JS.Str "a")]])
  /\ MiniJSON.parse "{not valid json" = None
  /\ fst (run "{not valid json") = JS.Return JS.Null.
Proof.
  cbv zeta. split; [reflexivity|]. split; [|split; [reflexivity|]].
  - destruct (demo_args sendMessage_json_object (Demo.answers Demo.reasonsJson)
                (OfObject Demo.hello) Demo.jsonOptions InterfaceOptions.empty
                Demo.emptyWorld Demo.helloJsonRequest 0 Demo.reasonsJson
                eq_refl eq_refl eq_refl ltac:(reflexivity)
                (fun i (Hi : i < 0) => False_ind _ (Nat.nlt_0_r i Hi)) eq_refl)
      as (_ & Hparsed).
    apply Hparsed. reflexivity.
  - destruct (demo_args sendMessage_json_object (Demo.answers "{not valid json")
                (OfObject Demo.hello) Demo.jsonOptions InterfaceOptions.empty
                Demo.emptyWorld Demo.helloJsonRequest 0 "{not valid json"
                eq_refl eq_refl eq_refl ltac:(reflexivity)
                (fun i (Hi : i < 0) => False_ind _ (Nat.nlt_0_r i Hi)) eq_refl)
      as (Hnull & _).
    apply Hnull. reflexivity.
Defined.

End Instances.

Section WriterInstances.

Import Writer.

(** A conversation that opens with the generic greeting followed by a
    system prompt: the greeting goes, a user message comes first. *)
Lemma updateMessageObject_leading_rewrites_witness :
  let msgs :=
    [ {| role := "system"; content := genericGreeting |};
      {| role := "system"; content := "Be terse." |};
      {| role := "user"; content := "Hi" |} ] in
  exists mo' st',
    updateMessageObject (E := ApiError) Demo.greetedObject [msgs]
    = (JS.Return mo', st')
    /\ st' !! messages mo'
       = Some [ {| role := "user"; content := "Hello!" |};
                {| role := "assistant"; content := "Be terse." |};
                {| role := "user"; content := "Hi" |} ].
Proof.
  cbv zeta.
  destruct (updateMessageObject_leading_rewrites (E := ApiError)
              Demo.greetedObject
              [[ {| role := "system"; content := genericGreeting |};
                 {| role := "system"; content := "Be terse." |};
                 {| role := "user"; content := "Hi" |} ]]
              {| role := "system"; content := genericGreeting |}
              [ {| role := "system"; content := "Be terse." |};
                {| role := "user"; content := "Hi" |} ] eq_refl)
    as (mo' & st' & out & Hrun & Hout & -> & _).
  exists mo', st'. split; [exact Hrun | exact Hout].
Defined.

(** Writer on the conversation that opens with a system prompt. *)
Lemma normalized_roles_witness :
  exists mo' st' out,
    updateMessageObject (E := ApiError) Demo.greetedObject
      [Demo.withSystemPrompt] = (JS.Return mo', st')
    /\ st' !! messages mo' = Some out
    /\ Alternating (map role out).
Proof.
  destruct normalized_roles as (Hwriter & _).
  exact (Hwriter ApiError Demo.greetedObject [Demo.withSystemPrompt]
           {| role := "system"; content := "Be terse." |}
           (tail Demo.withSystemPrompt) eq_refl).
Defined.

End WriterInstances.

(** * Further properties *)

(** ** Readings of a trace *)

Lemma reads_app (a b : list Gemini.Event) :
  GeminiTrace.reads (a ++ b) = GeminiTrace.reads a ++ GeminiTrace.reads b.
Proof.
  induction a as [|ev a IH]; [reflexivity|].
  destruct ev; simpl; rewrite IH; reflexivity.
Qed.

Lemma logs_app (a b : list Gemini.Event) :
  GeminiTrace.logs (a ++ b) = GeminiTrace.logs a ++ GeminiTrace.logs b.
Proof.
  induction a as [|ev a IH]; [reflexivity|].
  destruct ev; simpl; rewrite IH; reflexivity.
Qed.

Lemma Qsum_app (a b : list Q) :
  (GeminiTrace.Qsum (a ++ b) == GeminiTrace.Qsum a + GeminiTrace.Qsum b)%Q.
Proof.
  unfold GeminiTrace.Qsum.
  induction a as [|q a IH]; simpl; [ring | rewrite IH; ring].
Qed.

(** ** The retry loop, attempt by attempt *)

Section RetryLoopOutcome.

Import Gemini GeminiTrace.

Variable JSON_parse : string -> option JS.Value.
Variable provider : Request -> nat -> Reply.
Variable interfaceOptions : InterfaceOptions.t.
Variable cacheTimeoutSeconds : option Q.
Variable response_format : string.
Variable request : Request.
Variable cacheKey : string.

Abbreviation loop := (retryLoop JSON_parse provider interfaceOptions
  cacheTimeoutSeconds response_format request cacheKey).
Abbreviation retried cr k :=
  (flat_map (fun i => [Invoke request; Sleep (retryDelay interfaceOptions i)])
     (seq cr k)).

Lemma storeResponse_trace (v : JS.Value) (w : World) :
  trace (storeResponse cacheTimeoutSeconds cacheKey v w)
  = trace w ++ storeEvents cacheTimeoutSeconds cacheKey v.
Proof.
  unfold storeResponse, storeEvents.
  destruct cacheTimeoutSeconds as [ttl|]; [|symmetry; apply app_nil_r].
  destruct (JS.num_truthy ttl && JS.truthy v); [reflexivity|].
  symmetry; apply app_nil_r.
Qed.

(** An entered loop makes [k] failed attempts, each followed by its delay,
    and one more, which either succeeds or, the retries being used up,
    fails for good. *)
Lemma retryLoop_outcome (retryAttempts : Z) (cr : nat) (w : World) :
  (0 <= retryAttempts)%Z ->
  exists k ending,
    k <= Z.to_nat retryAttempts
    /\ trace (snd (loop retryAttempts cr w))
       = trace w ++ retried cr k ++ Invoke request :: ending
    /\ ((exists raw,
           outcome (provider request (cr + k)) = inr raw
           /\ fst (loop retryAttempts cr w)
              = JS.Return (reshape JSON_parse response_format raw)
           /\ ending = storeEvents cacheTimeoutSeconds cacheKey
                         (reshape JSON_parse response_format raw))
        \/ (exists e,
              k = Z.to_nat retryAttempts
              /\ outcome (provider request (cr + k)) = inl e
              /\ fst (loop retryAttempts cr w) = JS.Throw (JS.Raised e)
              /\ ending = [LogError (errorData e)])).
Proof.
  remember (Z.to_nat retryAttempts) as n eqn:Hn.
  revert retryAttempts cr w Hn.
  induction n as [|n IH]; intros ra cr w Hn Hra; rewrite retryLoop_step;
    (destruct (Z.ltb_spec ra 0); [lia|]);
    destruct (outcome (provider request cr)) as [error|raw] eqn:Hout.
  - destruct (Z.ltb_spec (ra - 1) 0); [|lia].
    exists 0, [LogError (errorData error)]. simpl.
    rewrite Nat.add_0_r, <- app_assoc.
    split; [lia|]. split; [reflexivity|]. right. exists error. auto.
  - exists 0, (storeEvents cacheTimeoutSeconds cacheKey
                 (reshape JSON_parse response_format raw)).
    simpl. rewrite Nat.add_0_r, storeResponse_trace. simpl.
    rewrite <- app_assoc.
    split; [lia|]. split; [reflexivity|]. left. exists raw. auto.
  - destruct (Z.ltb_spec (ra - 1) 0); [lia|].
    destruct (IH (ra - 1)%Z (S cr)
      (setTimeout (retryDelay interfaceOptions cr)
         (elapse (latency (provider request cr)) (emit (Invoke request) w)))
      ltac:(lia) ltac:(lia)) as (k & ending & Hk & Htr & Hend).
    exists (S k), ending. split; [lia|]. split.
    + rewrite Htr. simpl. rewrite <- !app_assoc. reflexivity.
    + replace (cr + S k) with (S cr + k) by lia.
      destruct Hend as [(raw & ? & ? & ?)|(e & -> & ? & ? & ?)].
      * left. exists raw. auto.
      * right. exists e. repeat split; try assumption; lia.
  - exists 0, (storeEvents cacheTimeoutSeconds cacheKey
                 (reshape JSON_parse response_format raw)).
    simpl. rewrite Nat.add_0_r, storeResponse_trace. simpl.
    rewrite <- app_assoc.
    split; [lia|]. split; [reflexivity|]. left. exists raw. auto.
Qed.

Lemma retried_reads (cr k : nat) : reads (retried cr k) = [].
Proof.
  revert cr. induction k as [|k IH]; intros cr; simpl; [reflexivity|]. apply IH.
Qed.

Lemma retried_logs (cr k : nat) : logs (retried cr k) = [].
Proof.
  revert cr. induction k as [|k IH]; intros cr; simpl; [reflexivity|]. apply IH.
Qed.

Lemma storeEvents_readings (v : JS.Value) :
  invocations (storeEvents cacheTimeoutSeconds cacheKey v) = 0
  /\ reads (storeEvents cacheTimeoutSeconds cacheKey v) = []
  /\ logs (storeEvents cacheTimeoutSeconds cacheKey v) = [].
Proof.
  unfold storeEvents. destruct cacheTimeoutSeconds as [ttl|]; [|auto].
  destruct (JS.num_truthy ttl && JS.truthy v); auto.
Qed.

Lemma storeEvents_falsy (v : JS.Value) :
  JS.truthy v = false -> storeEvents cacheTimeoutSeconds cacheKey v = [].
Proof.
  intros Hv. unfold storeEvents. destruct cacheTimeoutSeconds as [ttl|]; [|auto].
  rewrite Hv, andb_false_r. reflexivity.
Qed.

(** What the loop adds to each reading of the trace, entered or not. *)
Lemma retryLoop_readings (retryAttempts : Z) (cr : nat) (w : World) :
  let r := loop retryAttempts cr w in
  invocations (trace (snd r))
  <= invocations (trace w) + Z.to_nat (retryAttempts + 1)
  /\ reads (trace (snd r)) = reads (trace w)
  /\ logs (trace (snd r))
     = logs (trace w)
       ++ match fst r with
          | JS.Throw (JS.Raised e) => [errorData e]
          | _ => []
          end
  /\ stores (trace (snd r))
     = stores (trace w)
       ++ match fst r with
          | JS.Return v => stores (storeEvents cacheTimeoutSeconds cacheKey v)
          | JS.Throw _ => []
          end.
Proof.
  intros r. subst r.
  destruct (Z.ltb_spec retryAttempts 0) as [Hneg|Hpos].
  - rewrite retryLoop_step.
    destruct (Z.ltb_spec retryAttempts 0); [|lia]. simpl.
    rewrite (storeEvents_falsy JS.Undefined eq_refl). simpl.
    rewrite !app_nil_r. repeat split. lia.
  - destruct (retryLoop_outcome retryAttempts cr w Hpos)
      as (k & ending & Hk & Htr & Hend).
    rewrite Htr.
    rewrite !invocations_app, !reads_app, !logs_app, !stores_app.
    rewrite retries_invocations, retried_reads, retried_logs, retries_stores.
    change (Invoke request :: ending) with ([Invoke request] ++ ending).
    rewrite !invocations_app, !reads_app, !logs_app, !stores_app. simpl.
    destruct Hend as [(raw & _ & -> & ->)|(e & _ & _ & -> & ->)].
    + destruct (storeEvents_readings (reshape JSON_parse response_format raw))
        as (-> & -> & ->).
      rewrite !app_nil_r. repeat split. lia.
    + simpl. rewrite !app_nil_r. repeat split. lia.
Qed.

Lemma invokes_app (a b : list Event) :
  invokes (a ++ b) = invokes a ++ invokes b.
Proof.
  induction a as [|ev a IH]; [reflexivity|].
  destruct ev; simpl; rewrite IH; reflexivity.
Qed.

Lemma retried_invokes (cr k : nat) :
  invokes (retried cr k) = replicate k request.
Proof.
  revert cr. induction k as [|k IH]; intros cr; simpl; [reflexivity|].
  rewrite IH. reflexivity.
Qed.

Lemma storeEvents_invokes (v : JS.Value) :
  invokes (storeEvents cacheTimeoutSeconds cacheKey v) = [].
Proof.
  unfold storeEvents. destruct cacheTimeoutSeconds as [ttl|]; [|auto].
  destruct (JS.num_truthy ttl && JS.truthy v); auto.
Qed.

(** Every invocation of the loop carries the one request; an entered loop
    invokes at least once; and the loop never throws a [TypeError]. *)
Lemma retryLoop_invokes (retryAttempts : Z) (cr : nat) (w : World) :
  let r := loop retryAttempts cr w in
  invokes (trace (snd r))
  = invokes (trace w)
    ++ replicate (invocations (trace (snd r)) - invocations (trace w)) request
  /\ fst r <> JS.Throw JS.TypeError
  /\ ((0 <= retryAttempts)%Z ->
      invocations (trace w) < invocations (trace (snd r))).
Proof.
  intros r. subst r.
  destruct (Z.ltb_spec retryAttempts 0) as [Hneg|Hpos].
  - rewrite retryLoop_step.
    destruct (Z.ltb_spec retryAttempts 0); [|lia]. simpl.
    rewrite Nat.sub_diag. simpl. rewrite app_nil_r.
    split; [reflexivity|]. split; [discriminate | lia].
  - destruct (retryLoop_outcome retryAttempts cr w Hpos)
      as (k & ending & Hk & Htr & Hend).
    assert (Hending : invokes ending = [] /\ invocations ending = 0
                      /\ fst (loop retryAttempts cr w) <> JS.Throw JS.TypeError).
    { destruct Hend as [(raw & _ & -> & ->)|(e & _ & _ & -> & ->)].
      - rewrite storeEvents_invokes.
        destruct (storeEvents_readings
                    (reshape JSON_parse response_format raw)) as (-> & _).
        repeat split. discriminate.
      - repeat split. discriminate. }
    destruct Hending as (Hi & Hn & Hne).
    rewrite Htr.
    change (Invoke request :: ending) with ([Invoke request] ++ ending).
    rewrite !invokes_app, !invocations_app, retried_invokes,
      retries_invocations, Hi, Hn. simpl.
    replace (invocations (trace w) + (k + 1) - invocations (trace w))
      with (S k) by lia.
    split; [|split; [exact Hne | lia]].
    f_equal. clear. induction k as [|k IH]; [reflexivity|].
    simpl. rewrite IH. reflexivity.
Qed.

(** A store is the last thing a run of the loop does: the entry expires
    [ttl] seconds after the time at which the loop ends. *)
Lemma retryLoop_store_time (retryAttempts : Z) (cr : nat) (w : World) :
  let r := loop retryAttempts cr w in
  stores (trace (snd r)) = stores (trace w)
  \/ exists ttl v,
       cacheTimeoutSeconds = Some ttl
       /\ JS.num_truthy ttl = true
       /\ fst r = JS.Return v
       /\ JS.truthy v = true
       /\ cache (snd r)
          = Cache.saveToCache (now (snd r)) cacheKey v ttl (cache w).
Proof.
  remember (Z.to_nat (retryAttempts + 1)) as n eqn:Hn.
  revert retryAttempts cr w Hn.
  induction n as [|n IH]; intros ra cr w Hn; cbv zeta; rewrite retryLoop_step.
  - destruct (Z.ltb_spec ra 0); [|lia]. left. reflexivity.
  - destruct (Z.ltb_spec ra 0); [lia|].
    destruct (outcome (provider request cr)) as [error|raw].
    + destruct (Z.ltb_spec (ra - 1) 0).
      * left. simpl. rewrite ?stores_app. simpl. rewrite ?app_nil_r.
        reflexivity.
      * destruct (IH (ra - 1)%Z (S cr)
          (setTimeout (retryDelay interfaceOptions cr)
             (elapse (latency (provider request cr)) (emit (Invoke request) w)))
          ltac:(lia)) as [Hs|(ttl & v & ? & ? & ? & ? & Hc)].
        -- left. rewrite Hs. simpl. rewrite ?stores_app. simpl.
           rewrite ?app_nil_r. reflexivity.
        -- right. exists ttl, v. repeat split; assumption.
    + unfold storeResponse.
      destruct cacheTimeoutSeconds as [ttl|].
      * destruct (JS.num_truthy ttl) eqn:Ettl;
          [destruct (JS.truthy (reshape JSON_parse response_format raw)) eqn:Ev|].
        -- right. exists ttl, (reshape JSON_parse response_format raw).
           repeat split; assumption.
        -- left. simpl. rewrite ?stores_app. simpl. rewrite ?app_nil_r. reflexivity.
        -- left. simpl. rewrite ?stores_app. simpl. rewrite ?app_nil_r. reflexivity.
      * left. simpl. rewrite ?stores_app. simpl. rewrite ?app_nil_r. reflexivity.
Qed.

End RetryLoopOutcome.

(** ** [Gemini.sendMessage], further *)

Section SendMessageFurther.

Import Gemini GeminiTrace.

Variable returnMessageObject : string -> MessageObject.
Variable returnModelByAlias : string -> option string -> option string.
Variable defaultModelName : string.
Variable JSON_parse : string -> option JS.Value.
Variable JSON_stringify : Request -> string.
Variable provider : Request -> nat -> Reply.

Abbreviation build :=
  (buildRequest returnMessageObject returnModelByAlias defaultModelName).
Abbreviation send :=
  (sendMessage returnMessageObject returnModelByAlias defaultModelName
     JSON_parse JSON_stringify provider).
Abbreviation ttl_of io := (InterfaceOptions.cacheTimeoutSeconds io).

Lemma lookup_readings (ttl : option Q) (key : string) (w : World) :
  reads (trace (snd (lookup ttl key w)))
  = reads (trace w)
    ++ match ttl with
       | Some t => if JS.num_truthy t then [key] else []
       | None => []
       end
  /\ logs (trace (snd (lookup ttl key w))) = logs (trace w).
Proof.
  unfold lookup. destruct ttl as [t|]; [|simpl; rewrite app_nil_r; auto].
  destruct (JS.num_truthy t); simpl; [|rewrite app_nil_r; auto].
  rewrite reads_app, logs_app. simpl. rewrite app_nil_r. auto.
Qed.

(** X1. Whatever the provider answers, a call invokes it at most
    [retryAttempts + 1] times, and not at all under a negative
    [retryAttempts]. *)
Theorem sendMessage_invocations_bounded (message : MessageArg)
    (options : Options.t) (io : InterfaceOptions.t) (w : World) :
  invocations (trace (snd (send message options io w)))
  <= invocations (trace w) + Z.to_nat (retryAttemptsOf io + 1).
Proof.
  unfold sendMessage.
  destruct (build message options) as [request|e]; [|simpl; lia].
  pose proof (lookup_trace (ttl_of io) (JSON_stringify request) w)
    as (Hinv & _ & _).
  destruct (lookup _ _ w) as [[v|] w']; simpl in Hinv; [simpl; lia|].
  destruct (retryLoop_readings JSON_parse provider io (ttl_of io)
              (responseFormat options) request (JSON_stringify request)
              (retryAttemptsOf io) 0 w') as (Hle & _).
  lia.
Qed.

(** X2. A call logs exactly when it throws a provider error, once, and
    what it logs is that error's response data, [null] when it has none;
    a call that returns, or that throws the [TypeError] of the conversion,
    logs nothing. *)
Theorem sendMessage_logs (message : MessageArg) (options : Options.t)
    (io : InterfaceOptions.t) (w : World) :
  logs (trace (snd (send message options io w)))
  = logs (trace w)
    ++ match fst (send message options io w) with
       | JS.Throw (JS.Raised e) => [default JS.Null (response_data e)]
       | _ => []
       end.
Proof.
  unfold sendMessage.
  destruct (build message options) as [request|e] eqn:Hb.
  - pose proof (lookup_readings (ttl_of io) (JSON_stringify request) w)
      as (_ & Hlogs).
    destruct (lookup _ _ w) as [[v|] w']; simpl in Hlogs.
    + simpl. rewrite Hlogs, app_nil_r. reflexivity.
    + destruct (retryLoop_readings JSON_parse provider io (ttl_of io)
                  (responseFormat options) request (JSON_stringify request)
                  (retryAttemptsOf io) 0 w') as (_ & _ & Hl & _).
      rewrite Hl, Hlogs. reflexivity.
  - simpl. destruct e as [|err]; [rewrite app_nil_r; reflexivity|].
    exfalso. unfold buildRequest, convertDataStructure in Hb.
    destruct (last _); discriminate Hb.
Qed.

(** X3. Under a truthy cache timeout, a call that the cache did not
    answer stores what it returns exactly when that value is truthy: an
    empty text, or a JSON [null], [false] or [0], is returned but not
    stored; a truthy value is then in the cache under the key of the
    request. *)
Theorem sendMessage_stores_truthy (message : MessageArg)
    (options : Options.t) (io : InterfaceOptions.t) (w : World)
    (request : Request) (ttl : Q) :
  build message options = JS.Return request ->
  fst (lookup (ttl_of io) (JSON_stringify request) w) = None ->
  ttl_of io = Some ttl ->
  JS.num_truthy ttl = true ->
  let r := send message options io w in
  stores (trace (snd r))
  = stores (trace w)
    ++ match fst r with
       | JS.Return v =>
           if JS.truthy v then [(JSON_stringify request, v, ttl)] else []
       | JS.Throw _ => []
       end
  /\ (forall v, fst r = JS.Return v -> JS.truthy v = true ->
      exists expiry,
        cache (snd r) !! JSON_stringify request
        = Some {| Cache.value := v; Cache.expiresAt := expiry |}).
Proof.
  intros Hb Hl Httl Ht r.
  assert (Hst : stores (trace (snd r))
    = stores (trace w)
      ++ match fst r with
         | JS.Return v =>
             if JS.truthy v then [(JSON_stringify request, v, ttl)] else []
         | JS.Throw _ => []
         end).
  { subst r. rewrite (sendMessage_miss _ _ _ _ _ _ _ _ _ _ _ Hb Hl).
    pose proof (lookup_trace (ttl_of io) (JSON_stringify request) w)
      as (_ & _ & Hs).
    destruct (retryLoop_readings JSON_parse provider io (ttl_of io)
                (responseFormat options) request (JSON_stringify request)
                (retryAttemptsOf io) 0
                (snd (lookup (ttl_of io) (JSON_stringify request) w)))
      as (_ & _ & _ & Hstores).
    rewrite Hstores, Hs. f_equal.
    destruct (fst (retryLoop _ _ _ _ _ _ _ _ _ _)) as [v|e]; [|reflexivity].
    unfold storeEvents. rewrite Httl, Ht. simpl.
    destruct (JS.truthy v); reflexivity. }
  split; [exact Hst|].
  intros v Hr Hv. rewrite Hr, Hv in Hst.
  destruct (sendMessage_effects returnMessageObject returnModelByAlias
              defaultModelName JSON_parse JSON_stringify provider
              message options io w) as (_ & Hs).
  fold r in Hs.
  destruct Hs as [[Hs _]|(request' & ttl' & v' & Hb' & _ & _ & Hr' & _ & _ & t & Hc)].
  - rewrite Hs in Hst. exfalso.
    apply (f_equal (@length _)) in Hst. rewrite length_app in Hst.
    simpl in Hst. lia.
  - rewrite Hb in Hb'. injection Hb' as <-.
    rewrite Hr in Hr'. injection Hr' as <-.
    eexists. rewrite Hc. unfold Cache.saveToCache. apply lookup_insert_eq.
Qed.

(** X4. Unless [response_format] is ["json_object"], the text of the
    provider's answer is returned as it is, a string, even when it would
    parse as JSON; and the request did not ask the provider for JSON. *)
Theorem sendMessage_text_passthrough (message : MessageArg)
    (options : Options.t) (io : InterfaceOptions.t) (w : World)
    (request : Request) (k : nat) (raw : string) :
  responseFormat options <> "json_object" ->
  build message options = JS.Return request ->
  fst (lookup (ttl_of io) (JSON_stringify request) w) = None ->
  (Z.of_nat k <= retryAttemptsOf io)%Z ->
  (forall i, i < k -> exists e, outcome (provider request i) = inl e) ->
  outcome (provider request k) = inr raw ->
  fst (send message options io w) = JS.Return (JS.Str raw)
  /\ GenerationConfig.responseMimeType (r_generationConfig request)
     <> Some "application/json".
Proof.
  intros Hrf Hb Hl Hk Hfail Hok.
  apply String.eqb_neq in Hrf.
  destruct (sendMessage_first_success returnMessageObject returnModelByAlias
              defaultModelName JSON_parse JSON_stringify provider
              message options io w request k raw Hb Hl Hk Hfail Hok)
    as (Hres & _).
  split.
  - rewrite Hres. unfold reshape. rewrite Hrf. reflexivity.
  - unfold buildRequest, convertDataStructure in Hb. rewrite Hrf in Hb.
    destruct (last _); [|discriminate Hb].
    injection Hb as <-. simpl.
    destruct (JS.str_truthy (responseFormat options)); discriminate.
Qed.

(** X5. A call reads the cache once, under the key of the request, when
    the conversion succeeded and the cache timeout is truthy, and not at
    all otherwise. Without a truthy timeout (none, or 0) it does not store
    either: the cache is out of the picture. *)
Theorem sendMessage_cache_reads (message : MessageArg) (options : Options.t)
    (io : InterfaceOptions.t) (w : World) :
  let r := send message options io w in
  reads (trace (snd r))
  = reads (trace w)
    ++ match build message options, ttl_of io with
       | JS.Return request, Some ttl =>
           if JS.num_truthy ttl then [JSON_stringify request] else []
       | _, _ => []
       end
  /\ ((forall ttl, ttl_of io = Some ttl -> (ttl == 0)%Q) ->
      reads (trace (snd r)) = reads (trace w)
      /\ stores (trace (snd r)) = stores (trace w)
      /\ cache (snd r) = cache w).
Proof.
  intros r.
  assert (Hreads : reads (trace (snd r))
    = reads (trace w)
      ++ match build message options, ttl_of io with
         | JS.Return request, Some ttl =>
             if JS.num_truthy ttl then [JSON_stringify request] else []
         | _, _ => []
         end).
  { subst r. unfold sendMessage.
    destruct (build message options) as [request|e];
      [|simpl; rewrite app_nil_r; reflexivity].
    pose proof (lookup_readings (ttl_of io) (JSON_stringify request) w)
      as (Hr & _).
    destruct (lookup _ _ w) as [[v|] w']; simpl in Hr; [exact Hr|].
    destruct (retryLoop_readings JSON_parse provider io (ttl_of io)
                (responseFormat options) request (JSON_stringify request)
                (retryAttemptsOf io) 0 w') as (_ & Hr' & _).
    rewrite Hr'. exact Hr. }
  split; [exact Hreads|].
  intros Hfalsy.
  assert (Hno : forall t, ttl_of io = Some t -> JS.num_truthy t = false).
  { intros t Ht. unfold JS.num_truthy.
    rewrite (proj2 (Qeq_bool_iff t 0) (Hfalsy t Ht)). reflexivity. }
  split.
  - rewrite Hreads.
    destruct (build message options); [|apply app_nil_r].
    destruct (ttl_of io) as [t|]; [|apply app_nil_r].
    rewrite (Hno t eq_refl). apply app_nil_r.
  - destruct (sendMessage_effects returnMessageObject returnModelByAlias
                defaultModelName JSON_parse JSON_stringify provider
                message options io w) as (_ & Hs).
    fold r in Hs.
    destruct Hs as [Hs|(request' & ttl' & v' & _ & Httl & Ht & _)];
      [exact Hs|].
    rewrite (Hno ttl' Httl) in Ht. discriminate Ht.
Qed.

Lemma backoff_sum (io : InterfaceOptions.t) (n : nat) :
  (Qsum (map (retryDelay io) (seq 0 n))
   == 500
      * JS.or_else JS.num_truthy (InterfaceOptions.retryMultiplier io) (3 # 10)
      * inject_Z (Z.of_nat n) * (inject_Z (Z.of_nat n) + 1))%Q.
Proof.
  induction n as [|n IH].
  - unfold Qsum. simpl. ring.
  - rewrite seq_S, map_app, Qsum_app, IH. simpl.
    unfold Qsum. simpl. unfold retryDelay.
    rewrite Nat2Z.inj_succ. unfold Z.succ. rewrite inject_Z_plus.
    change (inject_Z 1) with 1%Q. ring.
Qed.

(** X6. The backoff is linear in the retry index, so the delays of a call
    that retries [n] times add up to [500 * m * n * (n + 1)]
    milliseconds, [m] being the retry multiplier. *)
Theorem sendMessage_total_backoff (message : MessageArg)
    (options : Options.t) (io : InterfaceOptions.t) (w : World) (m : Q) :
  (InterfaceOptions.retryMultiplier io = Some m /\ (0 < m)%Q)
  \/ (InterfaceOptions.retryMultiplier io = None /\ m = (3 # 10)%Q) ->
  let w' := snd (send message options io w) in
  let n := inject_Z (Z.of_nat
             (invocations (trace w') - invocations (trace w) - 1)) in
  (Qsum (delays (trace w'))
   == Qsum (delays (trace w)) + 500 * m * n * (n + 1))%Q.
Proof.
  intros Hm w' n.
  destruct (sendMessage_effects returnMessageObject returnModelByAlias
              defaultModelName JSON_parse JSON_stringify provider
              message options io w) as (Hd & _).
  fold w' in Hd. rewrite Hd, Qsum_app, backoff_sum. fold n.
  destruct Hm as [[-> Hpos]|[-> ->]]; simpl; [|reflexivity].
  rewrite (num_truthy_pos m Hpos). reflexivity.
Qed.

(** X8. A call that stored its answer left, under the key of the request,
    an entry that holds the value it returned and expires [ttl] seconds
    after the call ended. The same call made in any world with that cache,
    no later than that, returns the same value and invokes nothing; so
    does, under a timeout that is not negative, the same call made at
    once in the world the first one left. *)
Lemma sendMessage_twice (message : MessageArg) (options : Options.t)
    (io : InterfaceOptions.t) (w : World) :
  let r := send message options io w in
  stores (trace (snd r)) <> stores (trace w) ->
  exists request ttl v,
    build message options = JS.Return request
    /\ ttl_of io = Some ttl
    /\ fst r = JS.Return v
    /\ cache (snd r) !! JSON_stringify request
       = Some {| Cache.value := v;
                 Cache.expiresAt := (now (snd r) + ttl)%Q |}
    /\ (forall w2,
          cache w2 = cache (snd r) ->
          (now w2 <= now (snd r) + ttl)%Q ->
          fst (send message options io w2) = JS.Return v
          /\ invocations (trace (snd (send message options io w2)))
             = invocations (trace w2))
    /\ ((0 <= ttl)%Q ->
        fst (send message options io (snd r)) = JS.Return v
        /\ invocations (trace (snd (send message options io (snd r))))
           = invocations (trace (snd r))).
Proof.
  intros r Hstored.
  assert (Hrun : exists request ttl v,
    build message options = JS.Return request
    /\ ttl_of io = Some ttl
    /\ JS.num_truthy ttl = true
    /\ fst r = JS.Return v
    /\ JS.truthy v = true
    /\ cache (snd r)
       = Cache.saveToCache (now (snd r)) (JSON_stringify request) v ttl
           (cache w)).
  { subst r. revert Hstored. unfold sendMessage.
    destruct (build message options) as [request|e];
      [|intros Hs; exfalso; apply Hs; reflexivity].
    pose proof (lookup_trace (ttl_of io) (JSON_stringify request) w)
      as (_ & _ & Hst).
    pose proof (lookup_effects (ttl_of io) (JSON_stringify request) w)
      as (Hc & _ & _).
    destruct (lookup _ _ w) as [[v|] w']; simpl in Hst, Hc;
      [intros Hs; exfalso; apply Hs; exact Hst|].
    intros Hs.
    destruct (retryLoop_store_time JSON_parse provider io (ttl_of io)
                (responseFormat options) request (JSON_stringify request)
                (retryAttemptsOf io) 0 w')
      as [Hsame|(ttl & v & Httl & Ht & Hr & Hv & Hcache)].
    - exfalso. apply Hs. rewrite Hsame. exact Hst.
    - exists request, ttl, v. rewrite <- Hc. repeat split; assumption. }
  destruct Hrun as (request & ttl & v & Hb & Httl & Ht & Hr & Hv & Hc).
  exists request, ttl, v.
  assert (Hentry : cache (snd r) !! JSON_stringify request
                   = Some {| Cache.value := v;
                             Cache.expiresAt := (now (snd r) + ttl)%Q |}).
  { rewrite Hc. unfold Cache.saveToCache. apply lookup_insert_eq. }
  assert (Hhit : forall w2,
    cache w2 = cache (snd r) ->
    (now w2 <= now (snd r) + ttl)%Q ->
    fst (send message options io w2) = JS.Return v
    /\ invocations (trace (snd (send message options io w2)))
       = invocations (trace w2)).
  { intros w2 Hc2 Hnow.
    rewrite (sendMessage_hit returnMessageObject returnModelByAlias
               defaultModelName JSON_parse JSON_stringify provider
               message options io w2 request ttl
               {| Cache.value := v; Cache.expiresAt := (now (snd r) + ttl)%Q |}
               Hb Httl Ht); try assumption.
    - simpl. rewrite invocations_app. simpl. split; [reflexivity | lia].
    - rewrite Hc2. exact Hentry. }
  repeat split; try assumption.
  - apply Hhit; assumption.
  - apply Hhit; assumption.
  - apply (Hhit (snd r) eq_refl).
    rewrite <- (Qplus_0_r (now (snd r))) at 1.
    apply Qplus_le_r. assumption.
  - apply (Hhit (snd r) eq_refl).
    rewrite <- (Qplus_0_r (now (snd r))) at 1.
    apply Qplus_le_r. assumption.
Qed.

(** C10, as the code has it. On a message object whose [messages] list is
    empty [sendMessage] throws a [TypeError] and does nothing else: the
    world, and so the trace of cache reads and provider invocations, is as
    before. On a list [pre ++ [lastMessage]] the conversion succeeds and
    [sendMessage] does not throw a [TypeError]; every invocation it makes
    of the provider carries the one request, and it makes one when the
    cache does not answer and [retryAttempts] is not negative. The prompt
    of that request is the content of [lastMessage]; its history holds the
    messages of [pre], one entry each and in order, with their contents
    and their roles, but for the first entry, whose role is [user]
    whatever the caller gave. *)
Theorem sendMessage_prompt_and_history :
  (forall (m : option string) (options : Options.t) (io : InterfaceOptions.t)
          (w : World),
      send (OfObject {| model := m; messages := [] |}) options io w
      = (JS.Throw JS.TypeError, w))
  /\ (forall (m : option string) (pre : list Message) (lastMessage : Message)
             (options : Options.t) (io : InterfaceOptions.t) (w : World),
        let message :=
          OfObject {| model := m; messages := pre ++ [lastMessage] |} in
        let r := send message options io w in
        exists request,
          build message options = JS.Return request
          /\ r_prompt request = content lastMessage
          /\ r_history request = forceFirstUser (map toContent pre)
          /\ length (r_history request) = length pre
          /\ map parts (r_history request)
             = map (fun msg => [ {| text := content msg |} ]) pre
          /\ map c_role (tail (r_history request)) = map role (tail pre)
          /\ (forall c, head (r_history request) = Some c -> c_role c = "user")
          /\ fst r <> JS.Throw JS.TypeError
          /\ invokes (trace (snd r))
             = invokes (trace w)
               ++ replicate
                    (invocations (trace (snd r)) - invocations (trace w))
                    request
          /\ (fst (lookup (ttl_of io) (JSON_stringify request) w) = None ->
              (0 <= retryAttemptsOf io)%Z ->
              invocations (trace w) < invocations (trace (snd r)))).
Proof.
  split.
  - intros m options io w. reflexivity.
  - intros m pre lastMessage options io w message r.
    assert (Hb : exists request,
      build message options = JS.Return request
      /\ r_prompt request = content lastMessage
      /\ r_history request = forceFirstUser (map toContent pre)).
    { unfold message, buildRequest, convertDataStructure. simpl messages.
      rewrite last_snoc, removelast_last.
      eexists. split; [reflexivity|]. split; reflexivity. }
    destruct Hb as (request & Hb & Hp & Hh).
    exists request. split; [exact Hb|]. split; [exact Hp|].
    split; [exact Hh|]. rewrite Hh.
    split; [|split; [|split; [|split]]].
    + destruct pre as [|m0 pre]; [reflexivity|]. simpl.
      destruct (negb (String.eqb (role m0) "user")); simpl;
        rewrite length_map; reflexivity.
    + destruct pre as [|m0 pre]; [reflexivity|]. simpl.
      destruct (negb (String.eqb (role m0) "user")); simpl;
        rewrite !map_map; reflexivity.
    + destruct pre as [|m0 pre]; [reflexivity|]. simpl.
      destruct (negb (String.eqb (role m0) "user")); simpl;
        rewrite !map_map; reflexivity.
    + destruct pre as [|m0 pre]; [intros c Hc; discriminate Hc|]. simpl.
      destruct (String.eqb (role m0) "user") eqn:Eu; simpl;
        intros c [= <-]; [apply String.eqb_eq; exact Eu | reflexivity].
    + subst r. unfold sendMessage. rewrite Hb.
      pose proof (lookup_trace (ttl_of io) (JSON_stringify request) w)
        as (Hinv & _ & _).
      assert (Hinvk : invokes (trace (snd (lookup (ttl_of io)
                                 (JSON_stringify request) w)))
                      = invokes (trace w)).
      { destruct (lookup_effects (ttl_of io) (JSON_stringify request) w)
          as (_ & _ & [-> | ->]); [reflexivity|].
        rewrite invokes_app. simpl. apply app_nil_r. }
      destruct (lookup _ _ w) as [[v|] w']; simpl in Hinv, Hinvk.
      * simpl. rewrite Hinv, Hinvk, Nat.sub_diag. simpl. rewrite app_nil_r.
        split; [discriminate|]. split; [reflexivity|].
        intros Hmiss. discriminate Hmiss.
      * destruct (retryLoop_invokes JSON_parse provider io (ttl_of io)
                    (responseFormat options) request (JSON_stringify request)
                    (retryAttemptsOf io) 0 w') as (Hi & Hne & Hpos).
        rewrite Hinv, Hinvk in *.
        split; [exact Hne|]. split; [exact Hi|].
        intros _ Hra. apply Hpos. exact Hra.
Qed.

End SendMessageFurther.

(** ** [Writer.updateMessageObject], further *)

Section WriterFurther.

Import Writer.

Abbreviation rewritten msgs := (insertLeadingUser (dropGenericGreeting msgs)).

(** After the two leading rewrites no system message leads, so that a
    second pass has nothing to rewrite. *)
Lemma rewritten_fixed (msgs : list Message) :
  rewritten (rewritten msgs) = rewritten msgs.
Proof.
  assert (Hkeep : forall m l, String.eqb (role m) "system" = false ->
                    rewritten (m :: l) = m :: l).
  { intros m l Hm. unfold dropGenericGreeting, insertLeadingUser.
    rewrite Hm. simpl. rewrite Hm. reflexivity. }
  assert (Hins : forall l, rewritten (insertLeadingUser l) = insertLeadingUser l).
  { intros [|m l]; [reflexivity|]. unfold insertLeadingUser at 2 3.
    destruct (String.eqb (role m) "system") eqn:Em.
    - apply Hkeep. reflexivity.
    - apply Hkeep. exact Em. }
  apply Hins.
Qed.

Lemma rewritten_nil (m0 : Message) (rest : list Message) :
  rewritten (m0 :: rest) = []
  <-> rest = [] /\ role m0 = "system" /\ content m0 = genericGreeting.
Proof.
  unfold dropGenericGreeting, insertLeadingUser. split.
  - destruct (String.eqb (role m0) "system") eqn:Er;
      destruct (String.eqb (content m0) genericGreeting) eqn:Ec; simpl;
      try rewrite Er; try discriminate.
    destruct rest as [|m1 rest]; [|destruct (String.eqb (role m1) "system");
                                   discriminate].
    intros _. apply String.eqb_eq in Er, Ec. auto.
  - intros (-> & Hr & Hc). apply String.eqb_eq in Hr, Hc.
    rewrite Hr, Hc. reflexivity.
Qed.

(** X9. [updateMessageObject] throws exactly when the conversation is
    empty (or is no array): then it throws a [TypeError] and leaves the
    store as it was; on a non-empty conversation it returns. *)
Theorem updateMessageObject_throws_iff_empty (E : Type) (mo : MessageObject)
    (st : Store) :
  match st !! messages mo with
  | Some (_ :: _) =>
      exists mo', fst (updateMessageObject (E := E) mo st) = JS.Return mo'
  | _ => updateMessageObject (E := E) mo st = (JS.Throw JS.TypeError, st)
  end.
Proof.
  destruct (st !! messages mo) as [[|m0 rest]|] eqn:H.
  - unfold updateMessageObject. rewrite H. reflexivity.
  - rewrite (updateMessageObject_run mo st m0 rest H). eexists. reflexivity.
  - unfold updateMessageObject. rewrite H. reflexivity.
Qed.

(** X11. The object returned keeps the model of the caller's and refers
    to an array that did not exist before the call; the store grows by
    that one array. *)
Theorem updateMessageObject_fresh (E : Type) (mo : MessageObject)
    (st : Store) (m0 : Message) (rest : list Message) :
  st !! messages mo = Some (m0 :: rest) ->
  exists mo' st',
    updateMessageObject (E := E) mo st = (JS.Return mo', st')
    /\ model mo' = model mo
    /\ st !! messages mo' = None
    /\ messages mo' <> messages mo
    /\ length st' = S (length st).
Proof.
  intros H. pose proof (lookup_lt_Some _ _ _ H) as Hlt.
  rewrite (updateMessageObject_run mo st m0 rest H).
  eexists _, _. split; [reflexivity|]. simpl.
  split; [reflexivity|]. split; [apply lookup_ge_None_2; lia|].
  split; [lia|]. rewrite length_app, length_insert. simpl. lia.
Qed.

(** X12. Unless the conversation is the generic greeting alone, a second
    call on the same message object returns the same messages as the
    first and leaves the caller's array as the first call left it. *)
Theorem updateMessageObject_twice (E : Type) (mo : MessageObject)
    (st : Store) (m0 : Message) (rest : list Message) :
  st !! messages mo = Some (m0 :: rest) ->
  ~ (rest = [] /\ role m0 = "system" /\ content m0 = genericGreeting) ->
  exists mo1 st1 mo2 st2,
    updateMessageObject (E := E) mo st = (JS.Return mo1, st1)
    /\ updateMessageObject (E := E) mo st1 = (JS.Return mo2, st2)
    /\ st2 !! messages mo2 = st1 !! messages mo1
    /\ st2 !! messages mo = st1 !! messages mo.
Proof.
  intros H Hnot. pose proof (lookup_lt_Some _ _ _ H) as Hlt.
  rewrite (updateMessageObject_run mo st m0 rest H). cbv zeta.
  set (rw := rewritten (m0 :: rest)).
  set (st1 := <[messages mo := rw]> st ++ [imap relabel rw]).
  assert (H1 : st1 !! messages mo = Some rw).
  { unfold st1. rewrite lookup_app_l by (rewrite length_insert; exact Hlt).
    apply list_lookup_insert_eq. exact Hlt. }
  destruct rw as [|m1 rest1] eqn:Erw.
  { exfalso. apply Hnot. apply rewritten_nil. exact Erw. }
  eexists _, st1, _, _. split; [reflexivity|].
  rewrite (updateMessageObject_run mo st1 m1 rest1 H1). cbv zeta.
  rewrite <- Erw. unfold rw. rewrite rewritten_fixed. fold rw.
  split; [reflexivity|]. simpl messages.
  assert (Hlen : length st1 = S (length st)).
  { unfold st1. rewrite length_app, length_insert. simpl. lia. }
  assert (Hlt1 : messages mo < length st1) by lia.
  split.
  - rewrite lookup_app_r by (rewrite length_insert; lia).
    rewrite length_insert, Nat.sub_diag. simpl.
    unfold st1. rewrite lookup_app_r by (rewrite length_insert; lia).
    rewrite length_insert, Nat.sub_diag, Erw. reflexivity.
  - rewrite lookup_app_l by (rewrite length_insert; exact Hlt1).
    rewrite list_lookup_insert_eq by exact Hlt1.
    rewrite H1, Erw. reflexivity.
Qed.

(** X13. On a conversation that is the generic greeting alone, the call
    returns no message and empties the caller's array, so that a second
    call on the same message object throws a [TypeError]. *)
Theorem updateMessageObject_sole_greeting (E : Type) (mo : MessageObject)
    (st : Store) (m0 : Message) :
  st !! messages mo = Some [m0] ->
  role m0 = "system" ->
  content m0 = genericGreeting ->
  exists mo1 st1,
    updateMessageObject (E := E) mo st = (JS.Return mo1, st1)
    /\ st1 !! messages mo1 = Some []
    /\ st1 !! messages mo = Some []
    /\ updateMessageObject (E := E) mo st1 = (JS.Throw JS.TypeError, st1).
Proof.
  intros H Hr Hc. pose proof (lookup_lt_Some _ _ _ H) as Hlt.
  rewrite (updateMessageObject_run mo st m0 [] H). cbv zeta.
  rewrite (proj2 (rewritten_nil m0 []) (conj eq_refl (conj Hr Hc))).
  eexists _, _. split; [reflexivity|]. simpl.
  assert (H1 : (<[messages mo := []]> st ++ [[]]) !! messages mo
               = Some ([] : list Message)).
  { rewrite lookup_app_l by (rewrite length_insert; exact Hlt).
    apply list_lookup_insert_eq. exact Hlt. }
  split; [|split; [exact H1|]].
  - rewrite lookup_app_r by (rewrite length_insert; lia).
    rewrite length_insert, Nat.sub_diag. reflexivity.
  - unfold updateMessageObject. rewrite H1. reflexivity.
Qed.

(** X14. The call changes the number of messages by at most one, and not
    at all when the first message is not a system message. *)
Theorem updateMessageObject_length (E : Type) (mo : MessageObject)
    (st : Store) (m0 : Message) (rest : list Message) :
  st !! messages mo = Some (m0 :: rest) ->
  exists mo' st' out,
    updateMessageObject (E := E) mo st = (JS.Return mo', st')
    /\ st' !! messages mo' = Some out
    /\ length rest <= length out <= S (S (length rest))
    /\ (role m0 <> "system" -> length out = S (length rest)).
Proof.
  intros H.
  destruct (updateMessageObject_result (E := E) mo st m0 rest H)
    as (mo' & st' & Hrun & Hout).
  eexists mo', st', _. split; [exact Hrun|]. split; [exact Hout|].
  rewrite length_imap. unfold dropGenericGreeting, insertLeadingUser.
  destruct (String.eqb (role m0) "system") eqn:Er; simpl.
  - destruct (String.eqb (content m0) genericGreeting).
    + destruct rest as [|m1 rest]; simpl.
      * split; [lia|]. intros Hne. apply String.eqb_eq in Er. contradiction.
      * destruct (String.eqb (role m1) "system"); simpl;
          (split; [lia|]); intros Hne; apply String.eqb_eq in Er;
          contradiction.
    + rewrite Er. simpl. split; [lia|].
      intros Hne. apply String.eqb_eq in Er. contradiction.
  - rewrite Er. simpl. split; [lia | reflexivity].
Qed.

End WriterFurther.

(** ** [HuggingFaceModel] *)

Section HuggingFace.

Import HuggingFaceModel.

Variables (E W : Type).
Variable LLMInterface_sendMessage :
  string * option string -> JS.Value -> Gemini.Options.t ->
  Gemini.InterfaceOptions.t -> W -> JS.Completion E JS.Value * W.

(** X15. The [cache] argument of the constructor has no effect: whatever
    it is, and whatever parsers are piped afterwards, the instance passes
    [{ retryAttempts: 3 }] without a cache timeout to the facade, and
    [call] behaves as on an instance built with [cache = false]. *)
Theorem cache_flag_ignored (apiKey : option string) (cache : bool)
    (parsers : list (OutputParser E)) (simplePrompt : JS.Value)
    (options : option Gemini.Options.t) (w : W) :
  let this := fold_right pipe (new apiKey cache) parsers in
  interfaceOptions this = Gemini.InterfaceOptions.OfObject None (Some 3%Z) None
  /\ Gemini.InterfaceOptions.cacheTimeoutSeconds (interfaceOptions this) = None
  /\ call E W LLMInterface_sendMessage this simplePrompt options w
     = call E W LLMInterface_sendMessage
         (fold_right pipe (new apiKey false) parsers) simplePrompt options w.
Proof.
  assert (Hio : forall c,
    interfaceOptions (fold_right pipe (new (E := E) apiKey c) parsers)
    = Gemini.InterfaceOptions.OfObject None (Some 3%Z) None).
  { intros c. induction parsers as [|p ps IH]; [destruct c; reflexivity|].
    simpl. exact IH. }
  assert (Hsame :
    fold_right pipe (new (E := E) apiKey cache) parsers
    = fold_right pipe (new apiKey false) parsers).
  { destruct cache; reflexivity. }
  cbv zeta. rewrite Hio, Hsame. repeat split.
Qed.

End HuggingFace.

(** ** The further properties at concrete calls *)

Section FurtherInstances.

Import Gemini GeminiTrace.

Abbreviation demo_args P :=
  (P Demo.returnMessageObject Demo.returnModelByAlias Demo.defaultModelName
     MiniJSON.parse Demo.JSON_stringify).

(** An answer is stored under a timeout of 60 seconds; an empty answer is
    returned and not stored. *)
Lemma sendMessage_stores_truthy_witness :
  let run raw :=
    Demo.run (Demo.answers raw) (OfObject Demo.hello) Options.empty
      (InterfaceOptions.OfNumber 60%Q) Demo.emptyWorld in
  (stores (trace (snd (run "Hi there")))
   = [(Demo.JSON_stringify Demo.helloRequest, JS.Str "Hi there", 60%Q)])
  /\ (fst (run "") = JS.Return (JS.Str "")
      /\ stores (trace (snd (run ""))) = []).
Proof.
  cbv zeta.
  assert (Hmiss : fst (lookup (Some 60%Q)
                         (Demo.JSON_stringify Demo.helloRequest)
                         Demo.emptyWorld) = None)
    by (vm_compute; reflexivity).
  split.
  - exact (proj1 (demo_args sendMessage_stores_truthy (Demo.answers "Hi there")
                    (OfObject Demo.hello) Options.empty
                    (InterfaceOptions.OfNumber 60%Q) Demo.emptyWorld
                    Demo.helloRequest 60%Q eq_refl Hmiss eq_refl eq_refl)).
  - split; [reflexivity|].
    exact (proj1 (demo_args sendMessage_stores_truthy (Demo.answers "")
                    (OfObject Demo.hello) Options.empty
                    (InterfaceOptions.OfNumber 60%Q) Demo.emptyWorld
                    Demo.helloRequest 60%Q eq_refl Hmiss eq_refl eq_refl)).
Defined.

(** Without [response_format], an answer that is JSON text comes back as
    that text. *)
Lemma sendMessage_text_passthrough_witness :
  fst (Demo.run (Demo.answers Demo.reasonsJson) (OfObject Demo.hello)
         Options.empty InterfaceOptions.empty Demo.emptyWorld)
  = JS.Return (JS.Str Demo.reasonsJson)
  /\ GenerationConfig.responseMimeType (r_generationConfig Demo.helloRequest)
     <> Some "application/json".
Proof.
  apply (demo_args sendMessage_text_passthrough (Demo.answers Demo.reasonsJson)
           (OfObject Demo.hello) Options.empty InterfaceOptions.empty
           Demo.emptyWorld Demo.helloRequest 0 Demo.reasonsJson).
  - discriminate.
  - reflexivity.
  - reflexivity.
  - reflexivity.
  - intros i Hi. exfalso. exact (Nat.nlt_0_r i Hi).
  - reflexivity.
Defined.

(** Two retries under the default multiplier wait 300 and 600
    milliseconds. *)
Lemma sendMessage_total_backoff_witness :
  let w' :=
    snd (Demo.run Demo.alwaysFails (OfObject Demo.hello) Options.empty
           (InterfaceOptions.OfObject None (Some 2%Z) None) Demo.emptyWorld) in
  (Qsum (delays (trace w'))
   == Qsum (delays (trace Demo.emptyWorld))
      + 500 * (3 # 10) * inject_Z 2 * (inject_Z 2 + 1))%Q
  /\ (500 * (3 # 10) * inject_Z 2 * (inject_Z 2 + 1) == 900)%Q.
Proof.
  cbv zeta. split; [|reflexivity].
  apply (demo_args sendMessage_total_backoff Demo.alwaysFails
           (OfObject Demo.hello) Options.empty
           (InterfaceOptions.OfObject None (Some 2%Z) None) Demo.emptyWorld
           (3 # 10)%Q).
  right. split; reflexivity.
Defined.

(** With [retryAttempts = -1] a call against a failing provider returns
    [undefined]. *)
Lemma sendMessage_negative_retryAttempts_witness :
  let r :=
    Demo.run Demo.alwaysFails (OfObject Demo.hello) Options.empty
      (InterfaceOptions.OfObject None (Some (-1)%Z) None) Demo.emptyWorld in
  fst r = JS.Return JS.Undefined /\ invocations (trace (snd r)) = 0.
Proof.
  cbv zeta.
  apply (demo_args sendMessage_negative_retryAttempts Demo.alwaysFails
           (OfObject Demo.hello) Options.empty
           (InterfaceOptions.OfObject None (Some (-1)%Z) None)
           Demo.emptyWorld Demo.helloRequest);
    reflexivity.
Defined.

(** The call that produced the warm world stored its answer for 60
    seconds, so the same call made at once in that world is answered from
    the cache. *)
Lemma sendMessage_twice_witness :
  let again :=
    Demo.run (Demo.answers "Hi there") (OfObject Demo.hello) Options.empty
      (InterfaceOptions.OfNumber 60%Q) Demo.warmWorld in
  stores (trace Demo.warmWorld) <> stores (trace Demo.emptyWorld)
  /\ (0 <= 60)%Q
  /\ fst again = JS.Return (JS.Str "Hi there")
  /\ invocations (trace (snd again)) = invocations (trace Demo.warmWorld).
Proof.
  cbv zeta.
  assert (Hstored : stores (trace Demo.warmWorld)
                    <> stores (trace Demo.emptyWorld))
    by (vm_compute; discriminate).
  assert (Hpos : (0 <= 60)%Q) by (vm_compute; discriminate).
  split; [exact Hstored|]. split; [exact Hpos|].
  destruct (demo_args sendMessage_twice (Demo.answers "Hi there")
              (OfObject Demo.hello) Options.empty
              (InterfaceOptions.OfNumber 60%Q) Demo.emptyWorld Hstored)
    as (request & ttl & v & _ & Httl & Hr & _ & _ & Hrepeat).
  injection Httl as <-.
  assert (Hv : v = JS.Str "Hi there").
  { vm_compute in Hr. injection Hr as <-. reflexivity. }
  subst v. exact (Hrepeat Hpos).
Defined.

(** An empty conversation, and one of two messages against a provider
    that fails. *)
Lemma sendMessage_prompt_and_history_witness :
  let message :=
    OfObject {| model := None;
                messages := [ {| role := "assistant"; content := "Yes?" |} ]
                            ++ [ {| role := "user"; content := "Hello" |} ] |} in
  let r :=
    Demo.run Demo.alwaysFails message Options.empty InterfaceOptions.empty
      Demo.emptyWorld in
  Demo.run Demo.alwaysFails
    (OfObject {| model := None; messages := [] |}) Options.empty
    (InterfaceOptions.OfNumber 60%Q) Demo.warmWorld
  = (JS.Throw JS.TypeError, Demo.warmWorld)
  /\ exists request,
       buildRequest Demo.returnMessageObject Demo.returnModelByAlias
         Demo.defaultModelName message Options.empty = JS.Return request
       /\ r_prompt request = "Hello"
       /\ r_history request
          = [ {| c_role := "user"; parts := [ {| text := "Yes?" |} ] |} ]
       /\ fst r <> JS.Throw JS.TypeError
       /\ invokes (trace (snd r)) = [request].
Proof.
  cbv zeta.
  destruct (demo_args sendMessage_prompt_and_history Demo.alwaysFails)
    as (Hempty & Hsplit).
  split; [apply Hempty|].
  destruct (Hsplit None [ {| role := "assistant"; content := "Yes?" |} ]
              {| role := "user"; content := "Hello" |} Options.empty
              InterfaceOptions.empty Demo.emptyWorld)
    as (request & Hb & Hp & Hh & _ & _ & _ & _ & Hne & Hinv & _).
  exists request. split; [exact Hb|]. split; [exact Hp|].
  split; [exact Hh|]. split; [exact Hne|]. exact Hinv.
Defined.

(** C10, as stated, fails on a conversation that opens with a system
    prompt: the request the provider is invoked with has the last content
    for its prompt, but its history is not the preceding messages, whose
    first role is [system]. *)
Lemma sendMessage_history_role_rewritten :
  let pre := [ {| role := "system"; content := "Be terse." |};
               {| role := "user"; content := "Hi" |};
               {| role := "assistant"; content := "Hello" |} ] in
  let lastMessage := {| role := "user"; content := "Bye" |} in
  let r :=
    Demo.run (Demo.answers "ok")
      (OfObject {| model := None; messages := pre ++ [lastMessage] |})
      Options.empty InterfaceOptions.empty Demo.emptyWorld in
  exists request,
    invokes (trace (snd r)) = [request]
    /\ r_prompt request = content lastMessage
    /\ map role pre = ["system"; "user"; "assistant"]
    /\ map c_role (r_history request) = ["user"; "user"; "assistant"]
    /\ r_history request <> map toContent pre.
Proof.
  cbv zeta. eexists. split; [reflexivity|]. split; [reflexivity|].
  split; [reflexivity|]. split; [reflexivity|]. discriminate.
Qed.

End FurtherInstances.

Section WriterFurtherInstances.

Import Writer.

(** A store of two conversations; the call is on the second. *)
Lemma updateMessageObject_frame_witness :
  let st := [Demo.withSystemPrompt; Demo.greeted] in
  let mo := {| model := None; messages := 1 |} in
  st !! messages mo = Some Demo.greeted
  /\ snd (updateMessageObject (E := ApiError) mo st) !! 0 = st !! 0.
Proof.
  cbv zeta. split; [reflexivity|].
  apply (proj1 (updateMessageObject_frame (E := ApiError)
                  {| model := None; messages := 1 |}
                  [Demo.withSystemPrompt; Demo.greeted]
                  {| role := "system"; content := genericGreeting |}
                  [ {| role := "user"; content := "Hi" |} ] eq_refl)).
  - discriminate.
  - simpl. lia.
Defined.

Lemma updateMessageObject_fresh_witness :
  exists mo' st',
    updateMessageObject (E := ApiError) Demo.greetedObject [Demo.greeted]
    = (JS.Return mo', st')
    /\ model mo' = model Demo.greetedObject
    /\ [Demo.greeted] !! messages mo' = None
    /\ messages mo' <> messages Demo.greetedObject
    /\ length st' = 2.
Proof.
  exact (updateMessageObject_fresh ApiError Demo.greetedObject [Demo.greeted]
           {| role := "system"; content := genericGreeting |}
           [ {| role := "user"; content := "Hi" |} ] eq_refl).
Defined.

Lemma updateMessageObject_twice_witness :
  exists mo1 st1 mo2 st2,
    updateMessageObject (E := ApiError) Demo.greetedObject [Demo.greeted]
    = (JS.Return mo1, st1)
    /\ updateMessageObject (E := ApiError) Demo.greetedObject st1
       = (JS.Return mo2, st2)
    /\ st2 !! messages mo2 = st1 !! messages mo1
    /\ st2 !! messages Demo.greetedObject = st1 !! messages Demo.greetedObject.
Proof.
  apply (updateMessageObject_twice ApiError Demo.greetedObject [Demo.greeted]
           {| role := "system"; content := genericGreeting |}
           [ {| role := "user"; content := "Hi" |} ] eq_refl).
  intros (Hrest & _). discriminate Hrest.
Defined.

Lemma updateMessageObject_sole_greeting_witness :
  let greeting := {| role := "system"; content := genericGreeting |} in
  exists mo1 st1,
    updateMessageObject (E := ApiError) Demo.greetedObject [[greeting]]
    = (JS.Return mo1, st1)
    /\ st1 !! messages mo1 = Some []
    /\ st1 !! messages Demo.greetedObject = Some []
    /\ updateMessageObject (E := ApiError) Demo.greetedObject st1
       = (JS.Throw JS.TypeError, st1).
Proof.
  exact (updateMessageObject_sole_greeting ApiError Demo.greetedObject
           [[ {| role := "system"; content := genericGreeting |} ]]
           {| role := "system"; content := genericGreeting |}
           eq_refl eq_refl eq_refl).
Defined.

(** A conversation that opens with a user message keeps its length. *)
Lemma updateMessageObject_length_witness :
  let msgs := [ {| role := "user"; content := "Hi" |};
                {| role := "assistant"; content := "Hello" |} ] in
  exists mo' st' out,
    updateMessageObject (E := ApiError) Demo.greetedObject [msgs]
    = (JS.Return mo', st')
    /\ st' !! messages mo' = Some out
    /\ length out = 2.
Proof.
  cbv zeta.
  destruct (updateMessageObject_length ApiError Demo.greetedObject
              [[ {| role := "user"; content := "Hi" |};
                 {| role := "assistant"; content := "Hello" |} ]]
              {| role := "user"; content := "Hi" |}
              [ {| role := "assistant"; content := "Hello" |} ] eq_refl)
    as (mo' & st' & out & Hrun & Hout & _ & Hsame).
  exists mo', st', out. split; [exact Hrun|]. split; [exact Hout|].
  apply Hsame. discriminate.
Defined.

End WriterFurtherInstances.
